(** * Pan-tilt controller: command decoder and motion smoother

    A shallow embedding of [arduino/pan_tilt_controller/pan_tilt_controller.ino].

    The sketch keeps four angles (current and target, for the pan and the tilt
    axis), a pending command buffer and the time of the last smoother update.
    [readSerialCommands] assembles lines from the serial bytes and hands each
    non-empty line to [processCommand]; [updateServos] moves the current
    angles toward the targets every [MOVE_INTERVAL] milliseconds.  The
    module [IntegerSketch] holds [updateServos] of the sketch's form with
    [int] angles, the second source file.

    Modelling choices.
    - The C++ type [float] is read as the exact rationals [Q]: the constants
      0.1, 0.3, 90.0 and 180.0 are the rationals 1/10, 3/10, 90 and 180, and
      [+], [-], [*] and the comparisons are exact.  Rounding error, infinities
      and NaN of the hardware's binary32 numbers are outside this model.
      The module [Binary32] holds the blocks of [updateServos] a second time,
      with the binary32 operations and their rounding; what rounding decides
      is stated there.
    - [unsigned long] is a [Z] reduced modulo 2^32.
    - An Arduino [String] is a Rocq [string]; the serial output is the string
      of all characters printed so far; the two servos are a log of the
      values passed to [Servo::write].
    - The global variables of the sketch are the fields of one record that
      every function takes and returns. *)

From Stdlib Require Import ZArith QArith Qabs Qround Qminmax Qpower Lqa Lia.
From Stdlib Require Import Bool String Ascii List DecimalString DecimalPos DecimalN.
From Stdlib Require Import SpecFloat.
Import ListNotations.

Local Open Scope Q_scope.

(** ** Comparisons on [float] values as booleans *)

Definition Qltb (x y : Q) : bool := negb (Qle_bool y x).
Definition Qleb (x y : Q) : bool := Qle_bool x y.

(** ** The macros of Arduino.h used by the sketch

    These come from the Arduino core, not from the repository; they are the
    core's one-line definitions, transcribed. *)
Module Arduino.

(** [#define abs(x) ((x)>0?(x):-(x))] *)
Definition abs (x : Q) : Q := if Qltb 0 x then x else - x.

(** [#define max(a,b) ((a)>(b)?(a):(b))] *)
Definition max (a b : Q) : Q := if Qltb b a then a else b.

(** [#define constrain(amt,low,high) ((amt)<(low)?(low):((amt)>(high)?(high):(amt)))] *)
Definition constrain (amt low high : Q) : Q :=
  if Qltb amt low then low else if Qltb high amt then high else amt.

(** Conversion of a [float] to [long]: the fraction is dropped. *)
Definition to_long (x : Q) : Z :=
  if Qleb 0 x then Qfloor x else Qceiling x.

(** [#define round(x) ((x)>=0?(long)((x)+0.5):(long)((x)-0.5))] *)
Definition round (x : Q) : Z :=
  if Qleb 0 x then to_long (x + (1 # 2)) else to_long (x - (1 # 2)).

End Arduino.

(** ** Constants of the sketch *)

Definition PAN_MIN : Q := 0.
Definition PAN_MAX : Q := 180.
Definition TILT_MIN : Q := 0.
Definition TILT_MAX : Q := 180.

Definition MOVE_INTERVAL : Z := 5.
Definition SMOOTH_FACTOR : Q := 3 # 10.
Definition MIN_STEP : Q := 1 # 10.

(** ** State *)

Inductive Servo := panServo | tiltServo.

Record Controller := mkController {
  panAngle : Q;
  tiltAngle : Q;
  targetPanAngle : Q;
  targetTiltAngle : Q;
  inputBuffer : string;
  lastMoveTime : Z;
  (** everything written to [Serial] so far *)
  serialOut : string;
  (** every [Servo::write], oldest first *)
  servoLog : list (Servo * Z)
}.

Definition set_panAngle (v : Q) (s : Controller) : Controller :=
  mkController v (tiltAngle s) (targetPanAngle s) (targetTiltAngle s)
    (inputBuffer s) (lastMoveTime s) (serialOut s) (servoLog s).

Definition set_tiltAngle (v : Q) (s : Controller) : Controller :=
  mkController (panAngle s) v (targetPanAngle s) (targetTiltAngle s)
    (inputBuffer s) (lastMoveTime s) (serialOut s) (servoLog s).

Definition set_targetPanAngle (v : Q) (s : Controller) : Controller :=
  mkController (panAngle s) (tiltAngle s) v (targetTiltAngle s)
    (inputBuffer s) (lastMoveTime s) (serialOut s) (servoLog s).

Definition set_targetTiltAngle (v : Q) (s : Controller) : Controller :=
  mkController (panAngle s) (tiltAngle s) (targetPanAngle s) v
    (inputBuffer s) (lastMoveTime s) (serialOut s) (servoLog s).

Definition set_inputBuffer (v : string) (s : Controller) : Controller :=
  mkController (panAngle s) (tiltAngle s) (targetPanAngle s) (targetTiltAngle s)
    v (lastMoveTime s) (serialOut s) (servoLog s).

Definition set_lastMoveTime (v : Z) (s : Controller) : Controller :=
  mkController (panAngle s) (tiltAngle s) (targetPanAngle s) (targetTiltAngle s)
    (inputBuffer s) v (serialOut s) (servoLog s).

(** [Serial.print(str)] *)
Definition Serial_print (str : string) (s : Controller) : Controller :=
  mkController (panAngle s) (tiltAngle s) (targetPanAngle s) (targetTiltAngle s)
    (inputBuffer s) (lastMoveTime s) (serialOut s ++ str)%string (servoLog s).

(** The line end [Print::println] appends. *)
Definition CRLF : string := String "013" (String "010" EmptyString).

(** [Serial.println(str)] *)
Definition Serial_println (str : string) (s : Controller) : Controller :=
  Serial_print CRLF (Serial_print str s).

(** [servo.write(v)] *)
Definition Servo_write (sv : Servo) (v : Z) (s : Controller) : Controller :=
  mkController (panAngle s) (tiltAngle s) (targetPanAngle s) (targetTiltAngle s)
    (inputBuffer s) (lastMoveTime s) (serialOut s) (servoLog s ++ [(sv, v)]).

(** ** The motion smoother: [updateServos] *)

Definition ULONG_MOD : Z := 2 ^ 32.

(** [currentTime - lastMoveTime < MOVE_INTERVAL] on [unsigned long]. *)
Definition too_early (currentTime : Z) (s : Controller) : bool :=
  ((currentTime - lastMoveTime s) mod ULONG_MOD <? MOVE_INTERVAL)%Z.

(** The pan block of [updateServos] (lines 143-160). *)
Definition movePan (s : Controller) : Controller :=
  if Qltb MIN_STEP (Arduino.abs (panAngle s - targetPanAngle s)) then
    let panDiff := targetPanAngle s - panAngle s in
    let panStep := Arduino.max MIN_STEP (Arduino.abs (panDiff * SMOOTH_FACTOR)) in
    let s :=
      if Qleb (Arduino.abs panDiff) panStep then
        set_panAngle (targetPanAngle s) s
      else if Qltb 0 panDiff then
        set_panAngle (panAngle s + panStep) s
      else
        set_panAngle (panAngle s - panStep) s in
    Servo_write panServo (Arduino.round (panAngle s)) s
  else s.

(** The tilt block of [updateServos] (lines 162-179). *)
Definition moveTilt (s : Controller) : Controller :=
  if Qltb MIN_STEP (Arduino.abs (tiltAngle s - targetTiltAngle s)) then
    let tiltDiff := targetTiltAngle s - tiltAngle s in
    let tiltStep := Arduino.max MIN_STEP (Arduino.abs (tiltDiff * SMOOTH_FACTOR)) in
    let s :=
      if Qleb (Arduino.abs tiltDiff) tiltStep then
        set_tiltAngle (targetTiltAngle s) s
      else if Qltb 0 tiltDiff then
        set_tiltAngle (tiltAngle s + tiltStep) s
      else
        set_tiltAngle (tiltAngle s - tiltStep) s in
    Servo_write tiltServo (Arduino.round (tiltAngle s)) s
  else s.

(** [updateServos()], with the value [millis()] returns as an argument. *)
Definition updateServos (currentTime : Z) (s : Controller) : Controller :=
  if too_early currentTime s then s
  else moveTilt (movePan (set_lastMoveTime currentTime s)).

(** ** The parts of the Arduino [String] and [Print] classes the decoder uses

    They belong to the Arduino core (WString.cpp, Print.cpp) and the C
    library, not to the repository.  Memory is taken to be unbounded: an
    append to a [String] always succeeds. *)
Module WString.

Local Open Scope string_scope.

(** [String::length()] *)
Definition length (s : string) : Z := Z.of_nat (String.length s).

(** [String::indexOf(char)]: the position of the first occurrence, or -1. *)
Fixpoint indexOf (c : ascii) (s : string) : Z :=
  match s with
  | EmptyString => -1
  | String a rest =>
      if Ascii.eqb a c then 0
      else let i := indexOf c rest in
           if (i <? 0)%Z then -1 else (i + 1)%Z
  end.

(** [String::substring(left, right)]: the characters at positions
    [left .. right-1].  The core swaps the two bounds when [left > right],
    returns the empty string when [left] is at or past the end, and cuts
    [right] down to the length. *)
Definition substring (left right : Z) (s : string) : string :=
  let lo := if (right <? left)%Z then right else left in
  let hi := if (right <? left)%Z then left else right in
  if (length s <=? lo)%Z then ""
  else
    let hi := if (length s <? hi)%Z then length s else hi in
    String.substring (Z.to_nat lo) (Z.to_nat (hi - lo)) s.

(** [String::substring(left)] is [substring(left, length())]. *)
Definition substring_from (left : Z) (s : string) : string :=
  substring left (length s) s.

Definition isspace (c : ascii) : bool :=
  let n := nat_of_ascii c in
  (n =? 32)%nat || ((9 <=? n)%nat && (n <=? 13)%nat).

Definition isdigit (c : ascii) : bool :=
  let n := nat_of_ascii c in (48 <=? n)%nat && (n <=? 57)%nat.

Definition digit_value (c : ascii) : Z := Z.of_nat (nat_of_ascii c) - 48.

Fixpoint skip_space (s : string) : string :=
  match s with
  | String c rest => if isspace c then skip_space rest else s
  | EmptyString => s
  end.

(** The optional sign: [true] for a leading minus. *)
Definition read_sign (s : string) : bool * string :=
  match s with
  | String c rest =>
      if Ascii.eqb c "-" then (true, rest)
      else if Ascii.eqb c "+" then (false, rest)
      else (false, s)
  | EmptyString => (false, s)
  end.

(** Reads a run of decimal digits after the value [acc]; returns the value,
    the number of digits read and the rest of the string. *)
Fixpoint read_digits (acc : Z) (count : Z) (s : string) : Z * Z * string :=
  match s with
  | String c rest =>
      if isdigit c then read_digits (10 * acc + digit_value c) (count + 1) rest
      else (acc, count, s)
  | EmptyString => (acc, count, s)
  end.

(** The optional exponent: [e] or [E], an optional sign and at least one
    digit; anything else is no exponent. *)
Definition read_exponent (s : string) : Z :=
  match s with
  | String c rest =>
      if Ascii.eqb c "e" || Ascii.eqb c "E" then
        let '(neg, rest) := read_sign rest in
        let '(e, n, _) := read_digits 0 0 rest in
        if (n =? 0)%Z then 0%Z else if neg then (- e)%Z else e
      else 0%Z
  | EmptyString => 0%Z
  end.

(** Modelled from the spec: [String::toFloat()], which is the C library's
    [atof] on the characters, is missing from the sources.  The spec has it
    parse the string as a floating-point number, a decimal number optionally
    signed and optionally fractional, by the standard permissive parse, and
    give 0 when the string has no valid numeric prefix.  As in that parse,
    white space before the number is skipped and an exponent after it is
    read.  The value is
    [(-1)^sign * mantissa * 10^(exponent - fraction digits)].  The words
    [inf] and [nan], which the C library also reads, have no counterpart in
    the exact rationals and count as no number here. *)
Definition toFloat (s : string) : Q :=
  let s := skip_space s in
  let '(neg, s) := read_sign s in
  let '(ip, ni, s) := read_digits 0 0 s in
  let '(m, nf, s) :=
    match s with
    | String c rest =>
        if Ascii.eqb c "." then read_digits ip 0 rest else (ip, 0%Z, s)
    | EmptyString => (ip, 0%Z, s)
    end in
  let e := if ((ni + nf) =? 0)%Z then 0%Z else read_exponent s in
  let v := (inject_Z m * Qpower 10 (e - nf))%Q in
  if neg then (- v)%Q else v.

(** [Print::print(unsigned long)]: the decimal digits. *)
Definition print_ulong (n : Z) : string :=
  NilZero.string_of_uint (N.to_uint (Z.to_N n)).

(** The digit loop of [Print::printFloat]. *)
Fixpoint print_fraction (digits : nat) (remainder : Q) : string :=
  match digits with
  | O => ""
  | S digits' =>
      let remainder := (remainder * 10)%Q in
      let toPrint := Arduino.to_long remainder in
      print_ulong toPrint ++ print_fraction digits' (remainder - inject_Z toPrint)%Q
  end.

(** Modelled from the spec: [Print::printFloat(number, digits)], behind
    [Serial.print(value, 1)], is missing from the sources.  The spec has the
    value formatted with one decimal place; this is the core's algorithm:
    half a unit of the last place is added, the integer part is printed,
    then a point and the digits of the fraction. *)
Definition printFloat (number : Q) (digits : nat) : string :=
  if Qltb 4294967040 number then "ovf"
  else if Qltb number (-4294967040) then "ovf"
  else
    let sign := if Qltb number 0 then "-" else "" in
    let number := if Qltb number 0 then (- number)%Q else number in
    let rounding := ((1 # 2) / inject_Z (10 ^ Z.of_nat digits))%Q in
    let number := (number + rounding)%Q in
    let int_part := Arduino.to_long number in
    let remainder := (number - inject_Z int_part)%Q in
    sign ++ print_ulong int_part
         ++ (if (0 <? digits)%nat then "." else "")
         ++ print_fraction digits remainder.

End WString.

(** ** The command decoder *)

Local Open Scope string_scope.

(** [processCommand(command)] *)
Definition processCommand (command : string) (s : Controller) : Controller :=
  let pIndex := WString.indexOf "P" command in
  let tIndex := WString.indexOf "T" command in
  if (0 <=? pIndex)%Z && (0 <=? tIndex)%Z then
    let panStr := WString.substring (pIndex + 1) tIndex command in
    let tiltStr := WString.substring_from (tIndex + 1) command in
    let pan := WString.toFloat panStr in
    let tilt := WString.toFloat tiltStr in
    let pan := Arduino.constrain pan PAN_MIN PAN_MAX in
    let tilt := Arduino.constrain tilt TILT_MIN TILT_MAX in
    let s := set_targetPanAngle pan s in
    let s := set_targetTiltAngle tilt s in
    let s := Serial_print "OK: P=" s in
    let s := Serial_print (WString.printFloat pan 1) s in
    let s := Serial_print ", T=" s in
    Serial_println (WString.printFloat tilt 1) s
  else
    let s := Serial_print "Error: Invalid command format - " s in
    Serial_println command s.

Definition is_terminator (inChar : ascii) : bool :=
  Ascii.eqb inChar "010" || Ascii.eqb inChar "013".

(** The body of the loop of [readSerialCommands], for one character read. *)
Definition readChar (inChar : ascii) (s : Controller) : Controller :=
  if is_terminator inChar then
    if (0 <? WString.length (inputBuffer s))%Z then
      let s := processCommand (inputBuffer s) s in
      set_inputBuffer "" s
    else s
  else
    set_inputBuffer (inputBuffer s ++ String inChar "") s.

(** [readSerialCommands()], with the bytes [Serial] has available as an
    argument: the loop reads them one by one until none is left. *)
Fixpoint readSerialCommands (available : string) (s : Controller) : Controller :=
  match available with
  | EmptyString => s
  | String inChar rest => readSerialCommands rest (readChar inChar s)
  end.

(** ** [setup] and [loop] *)

(** The globals as initialised, before [setup]. *)
Definition power_on : Controller :=
  mkController 90 90 90 90 "" 0 "" [].

(** [setup()] *)
Definition setup (s : Controller) : Controller :=
  let s := Servo_write panServo (Arduino.to_long (panAngle s)) s in
  let s := Servo_write tiltServo (Arduino.to_long (tiltAngle s)) s in
  Serial_println "Pan-Tilt Controller Ready" s.

(** One pass of [loop()]: the bytes available to this pass and the clock
    value [updateServos] reads. *)
Definition loop (available : string) (now : Z) (s : Controller) : Controller :=
  updateServos now (readSerialCommands available s).

(** The passes of [loop()] in order. *)
Fixpoint run (passes : list (string * Z)) (s : Controller) : Controller :=
  match passes with
  | [] => s
  | (available, now) :: rest => run rest (loop available now s)
  end.

Definition NL : string := String "010" "".
Definition CR : string := String "013" "".

(** ** Vocabulary of the properties *)

Inductive Axis := Pan | Tilt.

Definition current (ax : Axis) (s : Controller) : Q :=
  match ax with Pan => panAngle s | Tilt => tiltAngle s end.

Definition target (ax : Axis) (s : Controller) : Q :=
  match ax with Pan => targetPanAngle s | Tilt => targetTiltAngle s end.

Definition min_limit (ax : Axis) : Q :=
  match ax with Pan => PAN_MIN | Tilt => TILT_MIN end.

Definition max_limit (ax : Axis) : Q :=
  match ax with Pan => PAN_MAX | Tilt => TILT_MAX end.

Definition servo_of (ax : Axis) : Servo :=
  match ax with Pan => panServo | Tilt => tiltServo end.

(** The distance from the current angle to the target, [|target - current|]. *)
Definition distance (ax : Axis) (s : Controller) : Q :=
  Qabs (target ax s - current ax s).

Definition Servo_eqb (a b : Servo) : bool :=
  match a, b with
  | panServo, panServo | tiltServo, tiltServo => true
  | _, _ => false
  end.

(** The values written to one servo so far. *)
Definition writes (sv : Servo) (s : Controller) : list Z :=
  map snd (filter (fun w => Servo_eqb (fst w) sv) (servoLog s)).

Definition within_limits (ax : Axis) (x : Q) : Prop :=
  min_limit ax <= x /\ x <= max_limit ax.

(** Current and target angle of both axes lie within the limits. *)
Definition angles_within_limits (s : Controller) : Prop :=
  forall ax, within_limits ax (current ax s) /\ within_limits ax (target ax s).

(** The states the sketch can be in after [setup]: between any two
    characters read and between any two calls of [updateServos]. *)
Inductive reachable : Controller -> Prop :=
  | reachable_setup : reachable (setup power_on)
  | reachable_readChar : forall inChar s,
      reachable s -> reachable (readChar inChar s)
  | reachable_updateServos : forall now s,
      reachable s -> reachable (updateServos now s).

(** Calls of [updateServos] at the given clock values, nothing received in
    between. *)
Fixpoint ticks (times : list Z) (s : Controller) : Controller :=
  match times with
  | [] => s
  | now :: rest => ticks rest (updateServos now s)
  end.

(** Every one of the calls finds [MOVE_INTERVAL] elapsed, so each is a
    smoother tick. *)
Fixpoint all_due (times : list Z) (s : Controller) : bool :=
  match times with
  | [] => true
  | now :: rest => negb (too_early now s) && all_due rest (updateServos now s)
  end.

(** The outer test of a block: the axis has to move. *)
Definition must_move (cur tgt : Q) : bool :=
  Qltb MIN_STEP (Arduino.abs (cur - tgt)).

(** The inner test of a block: the step covers the whole difference, so the
    angle is set to the target. *)
Definition snaps (cur tgt : Q) : bool :=
  let diff := tgt - cur in
  Qleb (Arduino.abs diff)
       (Arduino.max MIN_STEP (Arduino.abs (diff * SMOOTH_FACTOR))).

(** What one smoother tick makes of the current angle of an axis, as a
    function of the current and the target angle: the arithmetic the pan
    and the tilt block share. *)
Definition approach (cur tgt : Q) : Q :=
  if must_move cur tgt then
    let diff := tgt - cur in
    let step := Arduino.max MIN_STEP (Arduino.abs (diff * SMOOTH_FACTOR)) in
    if snaps cur tgt then tgt
    else if Qltb 0 diff then cur + step
    else cur - step
  else cur.

(** No line terminator among the characters. *)
Fixpoint no_terminator (chars : string) : bool :=
  match chars with
  | EmptyString => true
  | String c rest => negb (is_terminator c) && no_terminator rest
  end.

(** The character occurs in the line. *)
Definition occurs (c : ascii) (line : string) : Prop :=
  In c (list_ascii_of_string line).

(** The string starts, after white space and an optional sign, with a digit
    or with a point and a digit: it has a numeric prefix. *)
Definition numeric_prefix (str : string) : bool :=
  match snd (WString.read_sign (WString.skip_space str)) with
  | String c rest =>
      if Ascii.eqb c "." then
        match rest with
        | String d _ => WString.isdigit d
        | EmptyString => false
        end
      else WString.isdigit c
  | EmptyString => false
  end.

(** A value written with one decimal digit: the value in tenths, rounded to
    the nearest (halves up), as the integer part, a point and one digit. *)
Definition one_decimal (v : Q) : string :=
  let tenths := Qfloor (v * 10 + (1 # 2)) in
  WString.print_ulong (tenths / 10)
    ++ "." ++ String (ascii_of_nat (48 + Z.to_nat (tenths mod 10))) "".

(** The banner [setup] prints. *)
Definition BANNER : string := "Pan-Tilt Controller Ready" ++ CRLF.

(** ** Sample runs *)

(** After the command [P90.05T90]: the pan target is 0.05 away from the
    pan angle. *)
Definition near_target : Controller :=
  readSerialCommands ("P90.05T90" ++ NL) (setup power_on).

(** After the command [P90.2T90]: the pan target is 0.2 away. *)
Definition small_move : Controller :=
  readSerialCommands ("P90.2T90" ++ NL) (setup power_on).

(** After the command [P90T45]: the tilt target is 45 away. *)
Definition large_move : Controller :=
  readSerialCommands ("P90T45" ++ NL) (setup power_on).

(** The command [P200T-10] and two passes of [loop], at times 5 and 10. *)
Definition after_clamped_command : Controller :=
  run [("P200T-10" ++ NL, 5%Z); ("", 10%Z)] (setup power_on).

(** ** Further vocabulary *)

(** The value written last to a servo, if any. *)
Definition last_write (sv : Servo) (s : Controller) : option Z :=
  match rev (writes sv s) with
  | [] => None
  | v :: _ => Some v
  end.

(** What the decoder owns or publishes: the two targets, the pending
    buffer and the serial output. *)
Definition decoder_view (s : Controller) : Q * Q * string * string :=
  (targetPanAngle s, targetTiltAngle s, inputBuffer s, serialOut s).

(** All the bytes of the passes, in the order received. *)
Fixpoint received (passes : list (string * Z)) : string :=
  match passes with
  | [] => ""
  | (available, _) :: rest => available ++ received rest
  end.

(** The number of line feeds in a string. *)
Fixpoint count_lf (str : string) : nat :=
  match str with
  | EmptyString => O
  | String c rest => (if Ascii.eqb c "010" then 1 else 0) + count_lf rest
  end.

(** The number of terminators among the bytes that end a non-empty line;
    [pending] tells whether characters are waiting in the buffer. *)
Fixpoint completed_lines (pending : bool) (bytes : string) : nat :=
  match bytes with
  | EmptyString => O
  | String c rest =>
      if is_terminator c
      then (if pending then 1 else 0) + completed_lines false rest
      else completed_lines true rest
  end.

Definition nonempty (str : string) : bool :=
  match str with EmptyString => false | String _ _ => true end.

(** The decimal numeral of an integer, with a minus sign when negative. *)
Definition decimal_of (z : Z) : string :=
  if (z <? 0)%Z then String "-" (WString.print_ulong (- z))
  else WString.print_ulong z.

(** The command line for two whole numbers of degrees. *)
Definition command_for (pan tilt : Z) : string :=
  "P" ++ decimal_of pan ++ "T" ++ decimal_of tilt.

(** A whole number of degrees cut to the servo limits. *)
Definition clamp_degrees (z : Z) : Z := Z.max 0 (Z.min z 180).

(** The value of a run of decimal digits read after the value [acc]. *)
Fixpoint digits_value (acc : Z) (d : Decimal.uint) : Z :=
  match d with
  | Decimal.Nil => acc
  | Decimal.D0 l => digits_value (10 * acc + 0) l
  | Decimal.D1 l => digits_value (10 * acc + 1) l
  | Decimal.D2 l => digits_value (10 * acc + 2) l
  | Decimal.D3 l => digits_value (10 * acc + 3) l
  | Decimal.D4 l => digits_value (10 * acc + 4) l
  | Decimal.D5 l => digits_value (10 * acc + 5) l
  | Decimal.D6 l => digits_value (10 * acc + 6) l
  | Decimal.D7 l => digits_value (10 * acc + 7) l
  | Decimal.D8 l => digits_value (10 * acc + 8) l
  | Decimal.D9 l => digits_value (10 * acc + 9) l
  end.

(** ** The sketch with whole-degree angles

    The second source file is the sketch with the angles kept as [int]
    (its name is not part of the sources).  Its [updateServos] steps by
    whole degrees; it is modelled here with the globals it reads and
    writes.  [int] is the 16-bit integer of the AVR boards: a [Z] wrapped
    into [-32768 .. 32767] after every operation.  The [float] difference
    is an exact rational as before. *)
Module IntegerSketch.

Definition wrap (z : Z) : Z := ((z + 2 ^ 15) mod 2 ^ 16 - 2 ^ 15)%Z.

Definition MOVE_INTERVAL : Z := 10.
Definition SMOOTH_FACTOR : Q := 4 # 10.

(** [abs] and [max] of Arduino.h at type [int]. *)
Definition abs (x : Z) : Z := if (0 <? x)%Z then x else wrap (- x).
Definition max (a b : Z) : Z := if (b <? a)%Z then a else b.

Record Controller := mkController {
  panAngle : Z;
  tiltAngle : Z;
  targetPanAngle : Z;
  targetTiltAngle : Z;
  lastMoveTime : Z;
  servoLog : list (Servo * Z)
}.

Definition set_panAngle (v : Z) (s : Controller) : Controller :=
  mkController v (tiltAngle s) (targetPanAngle s) (targetTiltAngle s)
    (lastMoveTime s) (servoLog s).

Definition set_tiltAngle (v : Z) (s : Controller) : Controller :=
  mkController (panAngle s) v (targetPanAngle s) (targetTiltAngle s)
    (lastMoveTime s) (servoLog s).

Definition set_lastMoveTime (v : Z) (s : Controller) : Controller :=
  mkController (panAngle s) (tiltAngle s) (targetPanAngle s) (targetTiltAngle s)
    v (servoLog s).

Definition Servo_write (sv : Servo) (v : Z) (s : Controller) : Controller :=
  mkController (panAngle s) (tiltAngle s) (targetPanAngle s) (targetTiltAngle s)
    (lastMoveTime s) (servoLog s ++ [(sv, v)])%list.

Definition too_early (currentTime : Z) (s : Controller) : bool :=
  ((currentTime - lastMoveTime s) mod ULONG_MOD <? MOVE_INTERVAL)%Z.

(** The pan block of [updateServos]. *)
Definition movePan (s : Controller) : Controller :=
  if negb (panAngle s =? targetPanAngle s)%Z then
    let panDiff : Q := inject_Z (wrap (targetPanAngle s - panAngle s)) in
    let panStep : Z :=
      max 1 (wrap (Arduino.to_long (panDiff * SMOOTH_FACTOR))) in
    let s :=
      if Qleb (Arduino.abs panDiff) (inject_Z (abs panStep)) then
        set_panAngle (targetPanAngle s) s
      else if Qltb 0 panDiff then
        set_panAngle (wrap (panAngle s + panStep)) s
      else
        set_panAngle (wrap (panAngle s - panStep)) s in
    Servo_write panServo (panAngle s) s
  else s.

(** The tilt block of [updateServos]. *)
Definition moveTilt (s : Controller) : Controller :=
  if negb (tiltAngle s =? targetTiltAngle s)%Z then
    let tiltDiff : Q := inject_Z (wrap (targetTiltAngle s - tiltAngle s)) in
    let tiltStep : Z :=
      max 1 (wrap (Arduino.to_long (tiltDiff * SMOOTH_FACTOR))) in
    let s :=
      if Qleb (Arduino.abs tiltDiff) (inject_Z (abs tiltStep)) then
        set_tiltAngle (targetTiltAngle s) s
      else if Qltb 0 tiltDiff then
        set_tiltAngle (wrap (tiltAngle s + tiltStep)) s
      else
        set_tiltAngle (wrap (tiltAngle s - tiltStep)) s in
    Servo_write tiltServo (tiltAngle s) s
  else s.

(** [updateServos()], with the value [millis()] returns as an argument. *)
Definition updateServos (currentTime : Z) (s : Controller) : Controller :=
  if too_early currentTime s then s
  else moveTilt (movePan (set_lastMoveTime currentTime s)).

Definition current (ax : Axis) (s : Controller) : Z :=
  match ax with Pan => panAngle s | Tilt => tiltAngle s end.

Definition target (ax : Axis) (s : Controller) : Z :=
  match ax with Pan => targetPanAngle s | Tilt => targetTiltAngle s end.

(** Both angles of the axis lie between the servo limits 0 and 180. *)
Definition within_limits (ax : Axis) (s : Controller) : Prop :=
  (0 <= current ax s <= 180 /\ 0 <= target ax s <= 180)%Z.

Fixpoint ticks (times : list Z) (s : Controller) : Controller :=
  match times with
  | [] => s
  | now :: rest => ticks rest (updateServos now s)
  end.

Fixpoint all_due (times : list Z) (s : Controller) : bool :=
  match times with
  | [] => true
  | now :: rest => negb (too_early now s) && all_due rest (updateServos now s)
  end.

(** What one tick makes of the current angle of an axis: the arithmetic
    the two blocks share. *)
Definition approach (cur tgt : Z) : Z :=
  if negb (cur =? tgt)%Z then
    let diff : Q := inject_Z (wrap (tgt - cur)) in
    let step : Z := max 1 (wrap (Arduino.to_long (diff * SMOOTH_FACTOR))) in
    if Qleb (Arduino.abs diff) (inject_Z (abs step)) then tgt
    else if Qltb 0 diff then wrap (cur + step)
    else wrap (cur - step)
  else cur.

(** Pan at 90 with the target 100, tilt at 90 with the target 80. *)
Definition sample : Controller :=
  mkController 90 90 100 80 0 [(panServo, 90%Z); (tiltServo, 90%Z)].

End IntegerSketch.

(** ** The smoother in binary32 arithmetic

    The same blocks of [updateServos] with [float] as the IEEE 754 binary32
    numbers of the board, every operation rounding to the nearest number
    (ties to even).  What rounding decides is stated on this reading.
    [round] adds its 0.5 in binary32, as on the boards whose [double] is the
    32-bit format. *)
Module Binary32.

Definition prec : Z := 24.
Definition emax : Z := 128.

(** The binary32 number of an integer. *)
Definition of_Z (z : Z) : spec_float := binary_normalize prec emax z 0 false.

Definition add : spec_float -> spec_float -> spec_float := SFadd prec emax.
Definition sub : spec_float -> spec_float -> spec_float := SFsub prec emax.
Definition mul : spec_float -> spec_float -> spec_float := SFmul prec emax.
Definition div : spec_float -> spec_float -> spec_float := SFdiv prec emax.

(** The constants of the sketch: the binary32 numbers nearest to the
    decimal literals. *)
Definition PAN_MIN : spec_float := of_Z 0.
Definition PAN_MAX : spec_float := of_Z 180.
Definition TILT_MIN : spec_float := of_Z 0.
Definition TILT_MAX : spec_float := of_Z 180.
Definition SMOOTH_FACTOR : spec_float := div (of_Z 3) (of_Z 10).
Definition MIN_STEP : spec_float := div (of_Z 1) (of_Z 10).

(** [#define abs(x) ((x)>0?(x):-(x))] *)
Definition abs (x : spec_float) : spec_float :=
  if SFltb (of_Z 0) x then x else SFopp x.

(** [#define max(a,b) ((a)>(b)?(a):(b))] *)
Definition max (a b : spec_float) : spec_float :=
  if SFltb b a then a else b.

(** [#define constrain(amt,low,high) ((amt)<(low)?(low):((amt)>(high)?(high):(amt)))] *)
Definition constrain (amt low high : spec_float) : spec_float :=
  if SFltb amt low then low else if SFltb high amt then high else amt.

(** Conversion to [long]: the fraction is dropped. *)
Definition to_long (x : spec_float) : Z :=
  match x with
  | S754_finite s m e =>
      let magnitude :=
        if (0 <=? e)%Z then (Z.pos m * 2 ^ e)%Z else (Z.pos m / 2 ^ (- e))%Z in
      if s then (- magnitude)%Z else magnitude
  | _ => 0%Z
  end.

(** [#define round(x) ((x)>=0?(long)((x)+0.5):(long)((x)-0.5))] *)
Definition round (x : spec_float) : Z :=
  let half := div (of_Z 1) (of_Z 2) in
  if SFleb (of_Z 0) x then to_long (add x half) else to_long (sub x half).

Record Controller := mkController {
  panAngle : spec_float;
  tiltAngle : spec_float;
  targetPanAngle : spec_float;
  targetTiltAngle : spec_float;
  lastMoveTime : Z;
  servoLog : list (Servo * Z)
}.

Definition set_panAngle (v : spec_float) (s : Controller) : Controller :=
  mkController v (tiltAngle s) (targetPanAngle s) (targetTiltAngle s)
    (lastMoveTime s) (servoLog s).

Definition set_tiltAngle (v : spec_float) (s : Controller) : Controller :=
  mkController (panAngle s) v (targetPanAngle s) (targetTiltAngle s)
    (lastMoveTime s) (servoLog s).

Definition set_targetPanAngle (v : spec_float) (s : Controller) : Controller :=
  mkController (panAngle s) (tiltAngle s) v (targetTiltAngle s)
    (lastMoveTime s) (servoLog s).

Definition set_targetTiltAngle (v : spec_float) (s : Controller) : Controller :=
  mkController (panAngle s) (tiltAngle s) (targetPanAngle s) v
    (lastMoveTime s) (servoLog s).

Definition set_lastMoveTime (v : Z) (s : Controller) : Controller :=
  mkController (panAngle s) (tiltAngle s) (targetPanAngle s) (targetTiltAngle s)
    v (servoLog s).

Definition Servo_write (sv : Servo) (v : Z) (s : Controller) : Controller :=
  mkController (panAngle s) (tiltAngle s) (targetPanAngle s) (targetTiltAngle s)
    (lastMoveTime s) (servoLog s ++ [(sv, v)])%list.

(** Lines 115 to 120 of [processCommand]: the two parsed numbers are
    constrained and become the targets. *)
Definition publish (pan tilt : spec_float) (s : Controller) : Controller :=
  let pan := constrain pan PAN_MIN PAN_MAX in
  let tilt := constrain tilt TILT_MIN TILT_MAX in
  let s := set_targetPanAngle pan s in
  set_targetTiltAngle tilt s.

Definition too_early (currentTime : Z) (s : Controller) : bool :=
  ((currentTime - lastMoveTime s) mod ULONG_MOD <? MOVE_INTERVAL)%Z.

(** The pan block of [updateServos] (lines 143-160). *)
Definition movePan (s : Controller) : Controller :=
  if SFltb MIN_STEP (abs (sub (panAngle s) (targetPanAngle s))) then
    let panDiff := sub (targetPanAngle s) (panAngle s) in
    let panStep := max MIN_STEP (abs (mul panDiff SMOOTH_FACTOR)) in
    let s :=
      if SFleb (abs panDiff) panStep then
        set_panAngle (targetPanAngle s) s
      else if SFltb (of_Z 0) panDiff then
        set_panAngle (add (panAngle s) panStep) s
      else
        set_panAngle (sub (panAngle s) panStep) s in
    Servo_write panServo (round (panAngle s)) s
  else s.

(** The tilt block of [updateServos] (lines 162-179). *)
Definition moveTilt (s : Controller) : Controller :=
  if SFltb MIN_STEP (abs (sub (tiltAngle s) (targetTiltAngle s))) then
    let tiltDiff := sub (targetTiltAngle s) (tiltAngle s) in
    let tiltStep := max MIN_STEP (abs (mul tiltDiff SMOOTH_FACTOR)) in
    let s :=
      if SFleb (abs tiltDiff) tiltStep then
        set_tiltAngle (targetTiltAngle s) s
      else if SFltb (of_Z 0) tiltDiff then
        set_tiltAngle (add (tiltAngle s) tiltStep) s
      else
        set_tiltAngle (sub (tiltAngle s) tiltStep) s in
    Servo_write tiltServo (round (tiltAngle s)) s
  else s.

(** [updateServos()], with the value [millis()] returns as an argument. *)
Definition updateServos (currentTime : Z) (s : Controller) : Controller :=
  if too_early currentTime s then s
  else moveTilt (movePan (set_lastMoveTime currentTime s)).

Fixpoint ticks (times : list Z) (s : Controller) : Controller :=
  match times with
  | [] => s
  | now :: rest => ticks rest (updateServos now s)
  end.

Definition current (ax : Axis) (s : Controller) : spec_float :=
  match ax with Pan => panAngle s | Tilt => tiltAngle s end.

Definition target (ax : Axis) (s : Controller) : spec_float :=
  match ax with Pan => targetPanAngle s | Tilt => targetTiltAngle s end.

(** The outer test of a block. *)
Definition must_move (cur tgt : spec_float) : bool :=
  SFltb MIN_STEP (abs (sub cur tgt)).

(** The inner test of a block. *)
Definition snaps (cur tgt : spec_float) : bool :=
  let diff := sub tgt cur in
  SFleb (abs diff) (max MIN_STEP (abs (mul diff SMOOTH_FACTOR))).

(** The values written to one servo so far. *)
Definition writes (sv : Servo) (s : Controller) : list Z :=
  map snd (filter (fun w => Servo_eqb (fst w) sv) (servoLog s)).

(** The globals as initialised, and the servo writes of [setup]. *)
Definition after_setup : Controller :=
  mkController (of_Z 90) (of_Z 90) (of_Z 90) (of_Z 90) 0
    [(panServo, 90%Z); (tiltServo, 90%Z)].

(** The command [P180T90], ticks at 5 and 10, then the command [P136T90]:
    the pan angle is 135.899993896484375 and the pan target 136. *)
Definition before_rounding : Controller :=
  publish (of_Z 136) (of_Z 90)
    (ticks [5; 10]%Z (publish (of_Z 180) (of_Z 90) after_setup)).

End Binary32.

(** The pan target 90.05, as rounded to binary32, with the pan angle at 90:
    inside the dead band. *)
Definition near_target_binary32 : Binary32.Controller :=
  Binary32.publish (Binary32.div (Binary32.of_Z 1801) (Binary32.of_Z 20))
    (Binary32.of_Z 90) Binary32.after_setup.

(** * Properties *)

(** ** Boolean comparisons *)

Lemma Qltb_true (x y : Q) : Qltb x y = true -> x < y.
Proof.
  unfold Qltb. intros H. apply negb_true_iff in H.
  destruct (Qlt_le_dec x y) as [L | L]; [exact L |].
  apply Qle_bool_iff in L. congruence.
Qed.

Lemma Qltb_false (x y : Q) : Qltb x y = false -> y <= x.
Proof.
  unfold Qltb. intros H. apply negb_false_iff in H.
  now apply Qle_bool_iff.
Qed.

Lemma Qleb_true (x y : Q) : Qleb x y = true -> x <= y.
Proof. unfold Qleb. apply Qle_bool_iff. Qed.

Lemma Qleb_false (x y : Q) : Qleb x y = false -> y < x.
Proof.
  unfold Qleb. intros H.
  destruct (Qlt_le_dec y x) as [L | L]; [exact L |].
  apply Qle_bool_iff in L. congruence.
Qed.

Lemma Qltb_intro (x y : Q) : x < y -> Qltb x y = true.
Proof.
  intros H. destruct (Qltb x y) eqn:E; [reflexivity |].
  apply Qltb_false in E. lra.
Qed.

Lemma Qltb_intro_false (x y : Q) : y <= x -> Qltb x y = false.
Proof.
  intros H. destruct (Qltb x y) eqn:E; [| reflexivity].
  apply Qltb_true in E. lra.
Qed.

(** Splits on every comparison of the goal and turns it into an inequality. *)
Ltac split_comparisons :=
  repeat match goal with
  | |- context [Qltb ?a ?b] =>
      let E := fresh "E" in
      destruct (Qltb a b) eqn:E;
      [apply Qltb_true in E | apply Qltb_false in E]
  | |- context [Qleb ?a ?b] =>
      let E := fresh "E" in
      destruct (Qleb a b) eqn:E;
      [apply Qleb_true in E | apply Qleb_false in E]
  | _ : context [Qltb ?a ?b] |- _ =>
      let E := fresh "E" in
      destruct (Qltb a b) eqn:E;
      [apply Qltb_true in E | apply Qltb_false in E]
  | _ : context [Qleb ?a ?b] |- _ =>
      let E := fresh "E" in
      destruct (Qleb a b) eqn:E;
      [apply Qleb_true in E | apply Qleb_false in E]
  end.

Ltac unfold_arith :=
  unfold approach, must_move, snaps, Arduino.max, Arduino.abs, Arduino.constrain,
    MIN_STEP, SMOOTH_FACTOR, PAN_MIN, PAN_MAX, TILT_MIN, TILT_MAX in *.

(** ** The arithmetic of one tick *)

Lemma approach_idle (cur tgt : Q) :
  Qabs (tgt - cur) <= MIN_STEP -> approach cur tgt = cur.
Proof.
  intros H. unfold approach, must_move.
  rewrite Qltb_intro_false; [reflexivity |].
  revert H. unfold_arith. apply Qabs_case; intros; split_comparisons; lra.
Qed.

Lemma must_move_iff (cur tgt : Q) :
  must_move cur tgt = true <-> MIN_STEP < Qabs (tgt - cur).
Proof.
  unfold_arith. split.
  - intros H. apply Qltb_true in H. revert H.
    apply Qabs_case; intros; split_comparisons; lra.
  - intros H. apply Qltb_intro. revert H.
    apply Qabs_case; intros; split_comparisons; lra.
Qed.

(** The step is always shorter than the difference when the axis moves. *)
Lemma snap_unreachable (cur tgt : Q) :
  must_move cur tgt = true -> snaps cur tgt = false.
Proof.
  unfold_arith. intros H. apply Qltb_true in H. revert H.
  split_comparisons; intros; try reflexivity; lra.
Qed.

(** The new angle lies between the old one and the target. *)
Lemma approach_between (cur tgt : Q) :
  Qmin cur tgt <= approach cur tgt /\ approach cur tgt <= Qmax cur tgt.
Proof.
  unfold_arith.
  destruct (Q.min_spec cur tgt) as [[L ->] | [L ->]];
    destruct (Q.max_spec cur tgt) as [[L' ->] | [L' ->]];
    split_comparisons; lra.
Qed.

Lemma approach_closer (cur tgt : Q) :
  Qabs (tgt - approach cur tgt) <= Qabs (tgt - cur).
Proof.
  unfold_arith.
  apply Qabs_case; intros A; apply Qabs_case; intros B;
    revert A B; split_comparisons; intros; lra.
Qed.

(** Outside the dead band the distance shrinks, at least by the factor
    [1 - SMOOTH_FACTOR]. *)
Lemma approach_strict (cur tgt : Q) :
  MIN_STEP < Qabs (tgt - cur) ->
  Qabs (tgt - approach cur tgt) < Qabs (tgt - cur) /\
  Qabs (tgt - approach cur tgt) <= (1 - SMOOTH_FACTOR) * Qabs (tgt - cur).
Proof.
  unfold_arith.
  apply Qabs_case; intros A; apply Qabs_case; intros B;
    revert A B; split_comparisons; intros; lra.
Qed.

(** ** What [updateServos] does to the state *)

Lemma movePan_fields (s : Controller) :
  panAngle (movePan s) = approach (panAngle s) (targetPanAngle s) /\
  tiltAngle (movePan s) = tiltAngle s /\
  targetPanAngle (movePan s) = targetPanAngle s /\
  targetTiltAngle (movePan s) = targetTiltAngle s /\
  inputBuffer (movePan s) = inputBuffer s /\
  lastMoveTime (movePan s) = lastMoveTime s /\
  serialOut (movePan s) = serialOut s /\
  servoLog (movePan s) =
    (servoLog s ++
     (if must_move (panAngle s) (targetPanAngle s)
      then [(panServo, Arduino.round (approach (panAngle s) (targetPanAngle s)))]
      else []))%list.
Proof.
  unfold movePan, approach, snaps, must_move.
  destruct (Qltb MIN_STEP (Arduino.abs (panAngle s - targetPanAngle s))); cbv zeta.
  - destruct (Qleb _ _); [| destruct (Qltb 0 _)]; cbn; repeat split; reflexivity.
  - rewrite app_nil_r. repeat split; reflexivity.
Qed.

Lemma moveTilt_fields (s : Controller) :
  panAngle (moveTilt s) = panAngle s /\
  tiltAngle (moveTilt s) = approach (tiltAngle s) (targetTiltAngle s) /\
  targetPanAngle (moveTilt s) = targetPanAngle s /\
  targetTiltAngle (moveTilt s) = targetTiltAngle s /\
  inputBuffer (moveTilt s) = inputBuffer s /\
  lastMoveTime (moveTilt s) = lastMoveTime s /\
  serialOut (moveTilt s) = serialOut s /\
  servoLog (moveTilt s) =
    (servoLog s ++
     (if must_move (tiltAngle s) (targetTiltAngle s)
      then [(tiltServo, Arduino.round (approach (tiltAngle s) (targetTiltAngle s)))]
      else []))%list.
Proof.
  unfold moveTilt, approach, snaps, must_move.
  destruct (Qltb MIN_STEP (Arduino.abs (tiltAngle s - targetTiltAngle s))); cbv zeta.
  - destruct (Qleb _ _); [| destruct (Qltb 0 _)]; cbn; repeat split; reflexivity.
  - rewrite app_nil_r. repeat split; reflexivity.
Qed.

Lemma updateServos_target (ax : Axis) (now : Z) (s : Controller) :
  target ax (updateServos now s) = target ax s.
Proof.
  unfold updateServos. destruct (too_early now s); [reflexivity |].
  destruct (moveTilt_fields (movePan (set_lastMoveTime now s)))
    as (_ & _ & T1 & T2 & _).
  destruct (movePan_fields (set_lastMoveTime now s)) as (_ & _ & P1 & P2 & _).
  destruct ax; simpl; [rewrite T1, P1 | rewrite T2, P2]; reflexivity.
Qed.

Lemma updateServos_current (ax : Axis) (now : Z) (s : Controller) :
  current ax (updateServos now s) =
  if too_early now s then current ax s
  else approach (current ax s) (target ax s).
Proof.
  unfold updateServos. destruct (too_early now s); [reflexivity |].
  destruct (moveTilt_fields (movePan (set_lastMoveTime now s)))
    as (T1 & T2 & T3 & T4 & _).
  destruct (movePan_fields (set_lastMoveTime now s)) as (P1 & P2 & P3 & P4 & _).
  destruct ax; simpl.
  - rewrite T1, P1. reflexivity.
  - rewrite T2, P2, P4. reflexivity.
Qed.

Lemma writes_app (sv : Servo) (s : Controller) (l : list (Servo * Z)) (l' : list Z) :
  map snd (filter (fun w => Servo_eqb (fst w) sv) l) = l' ->
  forall s', servoLog s' = (servoLog s ++ l)%list ->
             writes sv s' = (writes sv s ++ l')%list.
Proof.
  intros H s' E. unfold writes. rewrite E, filter_app, map_app, H. reflexivity.
Qed.

Lemma updateServos_writes (ax : Axis) (now : Z) (s : Controller) :
  writes (servo_of ax) (updateServos now s) =
  (writes (servo_of ax) s ++
   (if too_early now s then []
    else if must_move (current ax s) (target ax s)
         then [Arduino.round (approach (current ax s) (target ax s))]
         else []))%list.
Proof.
  unfold updateServos. destruct (too_early now s).
  { now rewrite app_nil_r. }
  destruct (moveTilt_fields (movePan (set_lastMoveTime now s)))
    as (_ & _ & _ & _ & _ & _ & _ & T).
  destruct (movePan_fields (set_lastMoveTime now s))
    as (_ & P2 & _ & P4 & _ & _ & _ & P).
  rewrite P2, P4 in T. cbn [tiltAngle targetTiltAngle set_lastMoveTime] in T.
  cbn [panAngle targetPanAngle servoLog set_lastMoveTime] in P.
  rewrite P, <- app_assoc in T.
  eapply writes_app; [| exact T].
  destruct ax; simpl;
    destruct (must_move (panAngle s) (targetPanAngle s));
    destruct (must_move (tiltAngle s) (targetTiltAngle s)); reflexivity.
Qed.

Lemma updateServos_serial (now : Z) (s : Controller) :
  serialOut (updateServos now s) = serialOut s /\
  inputBuffer (updateServos now s) = inputBuffer s.
Proof.
  unfold updateServos. destruct (too_early now s); [split; reflexivity |].
  destruct (moveTilt_fields (movePan (set_lastMoveTime now s)))
    as (_ & _ & _ & _ & T5 & _ & T7 & _).
  destruct (movePan_fields (set_lastMoveTime now s))
    as (_ & _ & _ & _ & P5 & _ & P7 & _).
  split; [rewrite T7, P7 | rewrite T5, P5]; reflexivity.
Qed.

Lemma distance_updateServos (ax : Axis) (now : Z) (s : Controller) :
  distance ax (updateServos now s) =
  if too_early now s then distance ax s
  else Qabs (target ax s - approach (current ax s) (target ax s)).
Proof.
  unfold distance. rewrite updateServos_target, updateServos_current.
  destruct (too_early now s); reflexivity.
Qed.

Lemma distance_nonincreasing (ax : Axis) (now : Z) (s : Controller) :
  distance ax (updateServos now s) <= distance ax s.
Proof.
  rewrite distance_updateServos. destruct (too_early now s).
  - apply Qle_refl.
  - apply approach_closer.
Qed.

Lemma ticks_target (ax : Axis) (times : list Z) :
  forall s, target ax (ticks times s) = target ax s.
Proof.
  induction times as [| now rest IH]; intros s; simpl; [reflexivity |].
  rewrite IH. apply updateServos_target.
Qed.

Lemma ticks_distance_nonincreasing (ax : Axis) (times : list Z) :
  forall s, distance ax (ticks times s) <= distance ax s.
Proof.
  induction times as [| now rest IH]; intros s; simpl; [apply Qle_refl |].
  eapply Qle_trans; [apply IH | apply distance_nonincreasing].
Qed.

(** ** The smoother *)

(** C4. On every call of [updateServos], for each axis, the target stays, the
    distance to the target afterwards is at least 0 and at most the distance
    before, and the new current angle lies between the old one and the
    target: the angle never moves past the target. *)
Theorem no_overshoot (ax : Axis) (now : Z) (s : Controller) :
  target ax (updateServos now s) = target ax s /\
  0 <= distance ax (updateServos now s) /\
  distance ax (updateServos now s) <= distance ax s /\
  Qmin (current ax s) (target ax s) <= current ax (updateServos now s) /\
  current ax (updateServos now s) <= Qmax (current ax s) (target ax s).
Proof.
  split; [apply updateServos_target |].
  split; [apply Qabs_nonneg |].
  split; [apply distance_nonincreasing |].
  rewrite updateServos_current. destruct (too_early now s).
  - split; [apply Q.le_min_l | apply Q.le_max_l].
  - apply approach_between.
Qed.

Lemma idle_in_dead_band (ax : Axis) (now : Z) (s : Controller) :
  distance ax s <= MIN_STEP ->
  current ax (updateServos now s) = current ax s /\
  writes (servo_of ax) (updateServos now s) = writes (servo_of ax) s.
Proof.
  intros H. rewrite updateServos_current, updateServos_writes.
  assert (M : must_move (current ax s) (target ax s) = false).
  { destruct (must_move (current ax s) (target ax s)) eqn:E; [| reflexivity].
    apply must_move_iff in E. unfold distance in H. lra. }
  rewrite M, (approach_idle _ _ H).
  destruct (too_early now s); rewrite app_nil_r; split; reflexivity.
Qed.

Lemma ticks_idle_in_dead_band (ax : Axis) (times : list Z) :
  forall s, distance ax s <= MIN_STEP ->
            current ax (ticks times s) = current ax s.
Proof.
  induction times as [| now rest IH]; intros s H; simpl; [reflexivity |].
  rewrite IH.
  - apply (idle_in_dead_band ax now s H).
  - eapply Qle_trans; [apply distance_nonincreasing | exact H].
Qed.

(** C2, as stated, fails: with the pan angle at 90 and the pan target at
    90.05 the distance is below [MIN_STEP], the call at time 5 is a tick,
    and the pan angle is still not the target after it. *)
Lemma snap_in_dead_band_counterexample :
  distance Pan near_target <= MIN_STEP /\
  too_early 5 near_target = false /\
  ~ current Pan (updateServos 5 near_target)
    == target Pan (updateServos 5 near_target).
Proof.
  split; [| split].
  - vm_compute. discriminate.
  - reflexivity.
  - vm_compute. discriminate.
Qed.

(** C2, amended. On any call of [updateServos] where the distance of an axis
    to its target is at or below [MIN_STEP], the current angle and the
    target of that axis are left as they are and nothing is written to its
    servo. *)
Theorem dead_band_tick_is_idle (ax : Axis) (now : Z) (s : Controller) :
  distance ax s <= MIN_STEP ->
  current ax (updateServos now s) = current ax s /\
  target ax (updateServos now s) = target ax s /\
  writes (servo_of ax) (updateServos now s) = writes (servo_of ax) s.
Proof.
  intros H. destruct (idle_in_dead_band ax now s H) as [C W].
  repeat split; [exact C | apply updateServos_target | exact W].
Qed.

Lemma dead_band_tick_is_idle_witness :
  distance Pan near_target <= MIN_STEP /\
  current Pan (updateServos 5 near_target) = current Pan near_target /\
  target Pan (updateServos 5 near_target) = target Pan near_target /\
  writes panServo (updateServos 5 near_target) = writes panServo near_target.
Proof.
  assert (H : distance Pan near_target <= MIN_STEP)
    by (vm_compute; discriminate).
  split; [exact H | exact (dead_band_tick_is_idle Pan 5 near_target H)].
Defined.

(** ** The blocks in binary32 arithmetic *)

Lemma Binary32_movePan_frame (s : Binary32.Controller) :
  Binary32.tiltAngle (Binary32.movePan s) = Binary32.tiltAngle s /\
  Binary32.targetPanAngle (Binary32.movePan s) = Binary32.targetPanAngle s /\
  Binary32.targetTiltAngle (Binary32.movePan s) = Binary32.targetTiltAngle s /\
  Binary32.writes tiltServo (Binary32.movePan s) = Binary32.writes tiltServo s /\
  (Binary32.must_move (Binary32.panAngle s) (Binary32.targetPanAngle s) = false ->
   Binary32.movePan s = s).
Proof.
  unfold Binary32.movePan, Binary32.must_move.
  destruct (SFltb Binary32.MIN_STEP _); cbv zeta.
  - destruct (SFleb _ _); [| destruct (SFltb _ _)];
      unfold Binary32.writes; cbn [Binary32.tiltAngle Binary32.targetPanAngle
        Binary32.targetTiltAngle Binary32.servoLog Binary32.Servo_write
        Binary32.set_panAngle];
      rewrite filter_app, map_app; cbn; rewrite app_nil_r;
      repeat split; discriminate.
  - repeat split.
Qed.

Lemma Binary32_moveTilt_frame (s : Binary32.Controller) :
  Binary32.panAngle (Binary32.moveTilt s) = Binary32.panAngle s /\
  Binary32.targetPanAngle (Binary32.moveTilt s) = Binary32.targetPanAngle s /\
  Binary32.targetTiltAngle (Binary32.moveTilt s) = Binary32.targetTiltAngle s /\
  Binary32.writes panServo (Binary32.moveTilt s) = Binary32.writes panServo s /\
  (Binary32.must_move (Binary32.tiltAngle s) (Binary32.targetTiltAngle s) = false ->
   Binary32.moveTilt s = s).
Proof.
  unfold Binary32.moveTilt, Binary32.must_move.
  destruct (SFltb Binary32.MIN_STEP _); cbv zeta.
  - destruct (SFleb _ _); [| destruct (SFltb _ _)];
      unfold Binary32.writes; cbn [Binary32.panAngle Binary32.targetPanAngle
        Binary32.targetTiltAngle Binary32.servoLog Binary32.Servo_write
        Binary32.set_tiltAngle];
      rewrite filter_app, map_app; cbn; rewrite app_nil_r;
      repeat split; discriminate.
  - repeat split.
Qed.

(** In binary32 too, a call of [updateServos] that finds the outer test of
    an axis false leaves the angle, the target and the servo of the axis as
    they are. *)
Lemma Binary32_idle_tick (ax : Axis) (now : Z) (s : Binary32.Controller) :
  Binary32.must_move (Binary32.current ax s) (Binary32.target ax s) = false ->
  Binary32.current ax (Binary32.updateServos now s) = Binary32.current ax s /\
  Binary32.target ax (Binary32.updateServos now s) = Binary32.target ax s /\
  Binary32.writes (servo_of ax) (Binary32.updateServos now s)
  = Binary32.writes (servo_of ax) s.
Proof.
  intros H. unfold Binary32.updateServos.
  destruct (Binary32.too_early now s); [repeat split |].
  set (x := Binary32.set_lastMoveTime now s).
  destruct (Binary32_movePan_frame x) as (P1 & P2 & P3 & P4 & P5).
  destruct (Binary32_moveTilt_frame (Binary32.movePan x)) as (T1 & T2 & T3 & T4 & T5).
  destruct ax; cbn [Binary32.current Binary32.target servo_of] in *.
  - rewrite T1, T2, T4, (P5 H). repeat split.
  - rewrite T5 by (rewrite P1, P3; exact H).
    rewrite P1, P3, P4. repeat split.
Qed.

Lemma Binary32_idle_ticks (ax : Axis) (times : list Z) :
  forall s : Binary32.Controller,
    Binary32.must_move (Binary32.current ax s) (Binary32.target ax s) = false ->
    Binary32.current ax (Binary32.ticks times s) = Binary32.current ax s /\
    Binary32.target ax (Binary32.ticks times s) = Binary32.target ax s /\
    Binary32.writes (servo_of ax) (Binary32.ticks times s)
    = Binary32.writes (servo_of ax) s.
Proof.
  induction times as [| now rest IH]; intros s H; [repeat split |].
  cbn [Binary32.ticks].
  destruct (Binary32_idle_tick ax now s H) as (A & B & C).
  destruct (IH (Binary32.updateServos now s)) as (A' & B' & C').
  { rewrite A, B. exact H. }
  rewrite A', B', C'. repeat split; assumption.
Qed.

(** C6, as stated, fails on the binary32 numbers of the code.  After the
    command [P180T90], ticks at 5 and 10 and the command [P136T90], the pan
    angle is 135.899993896484375 and the pan target is 136.  They differ,
    the outer test is true and the inner test false; the tick at 15 adds
    the step, [MIN_STEP], to the angle, the sum rounds to 136, and the pan
    angle equals the pan target. *)
Lemma rounding_reaches_target_counterexample :
  Binary32.panAngle Binary32.before_rounding = S754_finite false 8906342 (-16) /\
  Binary32.targetPanAngle Binary32.before_rounding = Binary32.of_Z 136 /\
  SFeqb (Binary32.panAngle Binary32.before_rounding)
        (Binary32.targetPanAngle Binary32.before_rounding) = false /\
  Binary32.must_move (Binary32.panAngle Binary32.before_rounding)
                     (Binary32.targetPanAngle Binary32.before_rounding) = true /\
  Binary32.snaps (Binary32.panAngle Binary32.before_rounding)
                 (Binary32.targetPanAngle Binary32.before_rounding) = false /\
  Binary32.too_early 15 Binary32.before_rounding = false /\
  Binary32.panAngle (Binary32.updateServos 15 Binary32.before_rounding)
  = Binary32.targetPanAngle (Binary32.updateServos 15 Binary32.before_rounding).
Proof. vm_compute. repeat split. Qed.

(** C6, amended. On a call of [updateServos] where the distance of an axis
    is not zero but at or below [MIN_STEP], the current angle of the axis is
    left unchanged and nothing is written to its servo; from such a distance
    the current angle does not become equal to the target over any number
    of calls; and the inner test that sets the angle to the target is never
    true when the outer test lets the axis move.  In binary32 as well, an
    axis whose outer test is false keeps its angle and its servo over any
    number of calls. *)
Theorem dead_band_holds_position (ax : Axis) :
  (forall now s,
      0 < distance ax s -> distance ax s <= MIN_STEP ->
      current ax (updateServos now s) = current ax s /\
      writes (servo_of ax) (updateServos now s) = writes (servo_of ax) s) /\
  (forall times s,
      0 < distance ax s -> distance ax s <= MIN_STEP ->
      ~ current ax (ticks times s) == target ax (ticks times s)) /\
  (forall cur tgt, must_move cur tgt = true -> snaps cur tgt = false) /\
  (forall times s,
      Binary32.must_move (Binary32.current ax s) (Binary32.target ax s) = false ->
      Binary32.current ax (Binary32.ticks times s) = Binary32.current ax s /\
      Binary32.target ax (Binary32.ticks times s) = Binary32.target ax s /\
      Binary32.writes (servo_of ax) (Binary32.ticks times s)
      = Binary32.writes (servo_of ax) s).
Proof.
  split; [| split; [| split]].
  - intros now s _ H. apply idle_in_dead_band, H.
  - intros times s P H.
    rewrite ticks_target, (ticks_idle_in_dead_band ax times s H).
    intros E. unfold distance in P. rewrite E in P.
    revert P. apply Qabs_case; intros; lra.
  - apply snap_unreachable.
  - apply Binary32_idle_ticks.
Qed.

Lemma dead_band_holds_position_witness :
  (0 < distance Pan near_target /\ distance Pan near_target <= MIN_STEP /\
   current Pan (updateServos 5 near_target) = current Pan near_target /\
   writes (servo_of Pan) (updateServos 5 near_target)
   = writes (servo_of Pan) near_target) /\
  (~ current Pan (ticks [5; 10; 15]%Z near_target)
     == target Pan (ticks [5; 10; 15]%Z near_target)) /\
  (must_move 90 45 = true /\ snaps 90 45 = false) /\
  (Binary32.must_move (Binary32.current Pan near_target_binary32)
                      (Binary32.target Pan near_target_binary32) = false /\
   Binary32.current Pan (Binary32.ticks [5; 10; 15]%Z near_target_binary32)
   = Binary32.current Pan near_target_binary32 /\
   Binary32.target Pan (Binary32.ticks [5; 10; 15]%Z near_target_binary32)
   = Binary32.target Pan near_target_binary32 /\
   Binary32.writes (servo_of Pan) (Binary32.ticks [5; 10; 15]%Z near_target_binary32)
   = Binary32.writes (servo_of Pan) near_target_binary32).
Proof.
  destruct (dead_band_holds_position Pan) as (A & B & C & D).
  assert (H0 : 0 < distance Pan near_target) by reflexivity.
  assert (H1 : distance Pan near_target <= MIN_STEP)
    by (vm_compute; discriminate).
  assert (H3 : must_move 90 45 = true) by reflexivity.
  assert (H4 : Binary32.must_move (Binary32.current Pan near_target_binary32)
                 (Binary32.target Pan near_target_binary32) = false)
    by (vm_compute; reflexivity).
  split; [| split; [| split]].
  - split; [exact H0 | split; [exact H1 | exact (A 5%Z near_target H0 H1)]].
  - exact (B [5; 10; 15]%Z near_target H0 H1).
  - split; [exact H3 | exact (C 90 45 H3)].
  - split; [exact H4 | exact (D [5; 10; 15]%Z near_target_binary32 H4)].
Defined.

Lemma decay_succ (n : nat) :
  (1 - SMOOTH_FACTOR) ^ Z.of_nat (S n)
  == (1 - SMOOTH_FACTOR) * (1 - SMOOTH_FACTOR) ^ Z.of_nat n.
Proof.
  rewrite Nat2Z.inj_succ, <- Z.add_1_l.
  rewrite Qpower_plus by (unfold SMOOTH_FACTOR; lra).
  reflexivity.
Qed.

(** One tick either ends inside the dead band or shrinks the distance by
    the factor [1 - SMOOTH_FACTOR]. *)
Lemma tick_decay (ax : Axis) (now : Z) (s : Controller) :
  too_early now s = false ->
  distance ax (updateServos now s) <= MIN_STEP \/
  distance ax (updateServos now s) <= (1 - SMOOTH_FACTOR) * distance ax s.
Proof.
  intros D. rewrite distance_updateServos, D.
  destruct (Qlt_le_dec MIN_STEP (distance ax s)) as [L | L].
  - right. apply approach_strict, L.
  - left. eapply Qle_trans; [apply approach_closer | exact L].
Qed.

Lemma ticks_decay (ax : Axis) (times : list Z) :
  forall (s : Controller) (d : Q),
    all_due times s = true ->
    distance ax s <= d ->
    distance ax (ticks times s) <= MIN_STEP \/
    distance ax (ticks times s)
      <= (1 - SMOOTH_FACTOR) ^ Z.of_nat (List.length times) * d.
Proof.
  induction times as [| now rest IH]; intros s d D H.
  - right. simpl. lra.
  - cbn [all_due] in D. apply andb_true_iff in D. destruct D as [D1 D2].
    apply negb_true_iff in D1. cbn [ticks List.length].
    destruct (tick_decay ax now s D1) as [T | T].
    + left. eapply Qle_trans; [apply ticks_distance_nonincreasing | exact T].
    + assert (T' : distance ax (updateServos now s) <= (1 - SMOOTH_FACTOR) * d)
        by (unfold SMOOTH_FACTOR in *; lra).
      destruct (IH _ _ D2 T') as [R | R]; [left; exact R | right].
      rewrite decay_succ.
      eapply Qle_trans; [exact R |]. apply Qle_lteq. right. ring.
Qed.

(** C1, as stated, fails. With the pan angle at 90 and the pan target at
    90.2 the initial distance is 0.2, and [(1 - SMOOTH_FACTOR)^n * 0.2] is
    at or below [MIN_STEP] first for [n = 2], so the bound of the claim is
    three ticks.  The calls at times 5, 10 and 15 are ticks; the second one
    does not bring the pan angle closer although it differs from the target,
    and after the third the angle still differs from the target. *)
Lemma exact_convergence_counterexample :
  all_due [5; 10; 15]%Z small_move = true /\
  MIN_STEP < (1 - SMOOTH_FACTOR) ^ 1 * distance Pan small_move /\
  (1 - SMOOTH_FACTOR) ^ 2 * distance Pan small_move <= MIN_STEP /\
  ~ current Pan (ticks [5]%Z small_move) == target Pan (ticks [5]%Z small_move) /\
  ~ distance Pan (ticks [5; 10]%Z small_move)
    < distance Pan (ticks [5]%Z small_move) /\
  ~ current Pan (ticks [5; 10; 15]%Z small_move)
    == target Pan (ticks [5; 10; 15]%Z small_move).
Proof.
  repeat split; try reflexivity; vm_compute; discriminate.
Qed.

(** C1, amended. For every axis and a fixed target: a tick on which the
    distance to the target exceeds [MIN_STEP] strictly decreases it; after
    [n] ticks, for any [n] with [(1 - SMOOTH_FACTOR)^n * initial_distance <=
    MIN_STEP] (which is [n >= log_{1/(1-SMOOTH_FACTOR)} (initial_distance /
    MIN_STEP)]), the distance is at or below [MIN_STEP]; and from a distance
    at or below [MIN_STEP] on, the current angle no longer changes. *)
Theorem convergence_into_dead_band (ax : Axis) :
  (forall now s,
      too_early now s = false -> MIN_STEP < distance ax s ->
      distance ax (updateServos now s) < distance ax s) /\
  (forall times s,
      all_due times s = true ->
      (1 - SMOOTH_FACTOR) ^ Z.of_nat (List.length times) * distance ax s
        <= MIN_STEP ->
      target ax (ticks times s) = target ax s /\
      distance ax (ticks times s) <= MIN_STEP) /\
  (forall times s,
      distance ax s <= MIN_STEP ->
      current ax (ticks times s) = current ax s).
Proof.
  split; [| split].
  - intros now s D L. rewrite distance_updateServos, D.
    apply approach_strict, L.
  - intros times s D B. split; [apply ticks_target |].
    destruct (ticks_decay ax times s (distance ax s) D (Qle_refl _)) as [R | R].
    + exact R.
    + eapply Qle_trans; [exact R | exact B].
  - intros times s. apply ticks_idle_in_dead_band.
Qed.

Lemma convergence_into_dead_band_witness :
  (too_early 5 small_move = false /\ MIN_STEP < distance Pan small_move /\
   distance Pan (updateServos 5 small_move) < distance Pan small_move) /\
  (all_due [5; 10]%Z small_move = true /\
   (1 - SMOOTH_FACTOR) ^ Z.of_nat (List.length [5; 10]%Z)
     * distance Pan small_move <= MIN_STEP /\
   target Pan (ticks [5; 10]%Z small_move) = target Pan small_move /\
   distance Pan (ticks [5; 10]%Z small_move) <= MIN_STEP) /\
  (distance Pan near_target <= MIN_STEP /\
   current Pan (ticks [5; 10]%Z near_target) = current Pan near_target).
Proof.
  destruct (convergence_into_dead_band Pan) as (A & B & C).
  assert (H0 : too_early 5 small_move = false) by reflexivity.
  assert (H1 : MIN_STEP < distance Pan small_move) by reflexivity.
  assert (H2 : all_due [5; 10]%Z small_move = true) by reflexivity.
  assert (H3 : (1 - SMOOTH_FACTOR) ^ Z.of_nat (List.length [5; 10]%Z)
               * distance Pan small_move <= MIN_STEP)
    by (vm_compute; discriminate).
  assert (H4 : distance Pan near_target <= MIN_STEP)
    by (vm_compute; discriminate).
  split; [| split].
  - split; [exact H0 | split; [exact H1 | exact (A 5%Z small_move H0 H1)]].
  - split; [exact H2 | split; [exact H3 | exact (B [5; 10]%Z small_move H2 H3)]].
  - split; [exact H4 | exact (C [5; 10]%Z near_target H4)].
Defined.

(** ** Strings *)

Lemma append_assoc (a b c : string) : (a ++ b) ++ c = a ++ (b ++ c).
Proof. induction a as [| x a IH]; simpl; [reflexivity | now rewrite IH]. Qed.

Lemma append_nil_r (a : string) : a ++ "" = a.
Proof. induction a as [| x a IH]; simpl; [reflexivity | now rewrite IH]. Qed.

Lemma indexOf_range (c : ascii) (s : string) :
  (WString.indexOf c s = -1 \/
   0 <= WString.indexOf c s < WString.length s)%Z.
Proof.
  unfold WString.length.
  induction s as [| a s IH]; [left; reflexivity |].
  cbn [WString.indexOf String.length]. destruct (Ascii.eqb a c).
  - right. lia.
  - destruct (WString.indexOf c s <? 0)%Z eqn:E.
    + left. reflexivity.
    + right. apply Z.ltb_ge in E. lia.
Qed.

Lemma indexOf_absent (c : ascii) (s : string) :
  ~ occurs c s -> WString.indexOf c s = (-1)%Z.
Proof.
  unfold occurs. induction s as [| a s IH]; intros H; [reflexivity |].
  cbn [WString.indexOf]. cbn [list_ascii_of_string In] in H.
  destruct (Ascii.eqb a c) eqn:E.
  - apply Ascii.eqb_eq in E. tauto.
  - rewrite IH by tauto. reflexivity.
Qed.

(** The substring that starts where [indexOf] found the character starts
    with that character. *)
Lemma substring_at_indexOf (c : ascii) (s : string) (m : nat) :
  (0 <= WString.indexOf c s)%Z ->
  exists rest,
    String.substring (Z.to_nat (WString.indexOf c s)) (S m) s = String c rest.
Proof.
  induction s as [| a s IH]; cbn [WString.indexOf]; [lia |].
  destruct (Ascii.eqb a c) eqn:E.
  - intros _. apply Ascii.eqb_eq in E. subst a.
    exists (String.substring 0 m s). reflexivity.
  - destruct (WString.indexOf c s <? 0)%Z eqn:L; [lia |].
    apply Z.ltb_ge in L. intros _.
    destruct (IH L) as [rest R]. exists rest.
    rewrite Z.add_1_r, Z2Nat.inj_succ by exact L. exact R.
Qed.

(** With the first [T] before the first [P], the bounds of the pan
    substring are swapped and it runs from that [T] to that [P]. *)
Lemma pan_substring_reversed (line : string) :
  (0 <= WString.indexOf "T" line < WString.indexOf "P" line)%Z ->
  exists rest,
    WString.substring (WString.indexOf "P" line + 1)
                      (WString.indexOf "T" line) line
    = String "T" rest.
Proof.
  intros [T0 TP]. unfold WString.substring.
  destruct (indexOf_range "P" line) as [P | P]; [lia |].
  replace (WString.indexOf "T" line <? WString.indexOf "P" line + 1)%Z
    with true by (symmetry; apply Z.ltb_lt; lia).
  replace (WString.length line <=? WString.indexOf "T" line)%Z
    with false by (symmetry; apply Z.leb_gt; lia).
  replace (WString.length line <? WString.indexOf "P" line + 1)%Z
    with false by (symmetry; apply Z.ltb_ge; lia).
  replace (Z.to_nat (WString.indexOf "P" line + 1 - WString.indexOf "T" line))
    with (S (Z.to_nat (WString.indexOf "P" line - WString.indexOf "T" line)))
    by lia.
  apply substring_at_indexOf, T0.
Qed.

(** ** Parsing numbers *)

Lemma read_digits_none (c : ascii) (rest : string) (acc n : Z) :
  WString.isdigit c = false ->
  WString.read_digits acc n (String c rest) = (acc, n, String c rest).
Proof. intros H. cbn [WString.read_digits]. now rewrite H. Qed.

Lemma Qopp_zero (v : Q) : v == 0 -> - v == 0.
Proof. intros H. rewrite H. reflexivity. Qed.

Lemma toFloat_no_prefix (str : string) :
  numeric_prefix str = false -> WString.toFloat str == 0.
Proof.
  unfold numeric_prefix, WString.toFloat.
  destruct (WString.read_sign (WString.skip_space str)) as [neg s].
  cbn [snd]. intros H.
  assert (V : forall v : Q, v == 0 -> (if neg then - v else v) == 0).
  { intros v E. destruct neg; [apply Qopp_zero |]; exact E. }
  destruct s as [| c rest].
  - cbn. apply V. reflexivity.
  - destruct (Ascii.eqb c ".") eqn:E.
    + apply Ascii.eqb_eq in E. subst c.
      rewrite read_digits_none by reflexivity.
      cbn [Ascii.eqb Bool.eqb].
      destruct rest as [| d rest'].
      * cbn. apply V. reflexivity.
      * rewrite read_digits_none by exact H. cbn. apply V. reflexivity.
    + rewrite read_digits_none by exact H. rewrite E.
      cbn. apply V. reflexivity.
Qed.

(** ** The decoder *)

Lemma processCommand_accepts (command : string) (s : Controller) :
  (0 <= WString.indexOf "P" command)%Z ->
  (0 <= WString.indexOf "T" command)%Z ->
  processCommand command s =
  let pan :=
    Arduino.constrain
      (WString.toFloat
         (WString.substring (WString.indexOf "P" command + 1)
                            (WString.indexOf "T" command) command))
      PAN_MIN PAN_MAX in
  let tilt :=
    Arduino.constrain
      (WString.toFloat
         (WString.substring_from (WString.indexOf "T" command + 1) command))
      TILT_MIN TILT_MAX in
  mkController (panAngle s) (tiltAngle s) pan tilt
    (inputBuffer s) (lastMoveTime s)
    (serialOut s ++ "OK: P=" ++ WString.printFloat pan 1
       ++ ", T=" ++ WString.printFloat tilt 1 ++ CRLF)
    (servoLog s).
Proof.
  intros P T. unfold processCommand.
  apply Z.leb_le in P. apply Z.leb_le in T. rewrite P, T.
  cbv zeta. unfold Serial_println, Serial_print.
  cbn -[WString.printFloat WString.toFloat WString.substring
        WString.substring_from WString.indexOf Arduino.constrain append].
  rewrite !append_assoc. reflexivity.
Qed.

Lemma processCommand_rejects (command : string) (s : Controller) :
  (WString.indexOf "P" command = -1 \/ WString.indexOf "T" command = -1)%Z ->
  processCommand command s =
  mkController (panAngle s) (tiltAngle s) (targetPanAngle s) (targetTiltAngle s)
    (inputBuffer s) (lastMoveTime s)
    (serialOut s ++ "Error: Invalid command format - " ++ command ++ CRLF)
    (servoLog s).
Proof.
  intros H. unfold processCommand.
  replace ((0 <=? WString.indexOf "P" command)%Z
           && (0 <=? WString.indexOf "T" command)%Z) with false.
  - unfold Serial_println, Serial_print. cbn -[append].
    rewrite !append_assoc. reflexivity.
  - symmetry. apply andb_false_iff.
    destruct H as [H | H]; rewrite H; [left | right]; reflexivity.
Qed.

Lemma readSerialCommands_app (first : string) :
  forall (rest : string) (s : Controller),
    readSerialCommands (first ++ rest) s
    = readSerialCommands rest (readSerialCommands first s).
Proof.
  induction first as [| c first IH]; intros rest s; [reflexivity |].
  cbn [append readSerialCommands]. apply IH.
Qed.

(** Characters that end no line go to the end of the pending buffer. *)
Lemma read_chunk (chunk : string) :
  forall (rest : string) (s : Controller),
    no_terminator chunk = true ->
    readSerialCommands (chunk ++ rest) s =
    readSerialCommands rest (set_inputBuffer (inputBuffer s ++ chunk) s).
Proof.
  induction chunk as [| c chunk IH]; intros rest s H.
  - cbn [append]. rewrite append_nil_r. destruct s; reflexivity.
  - cbn [no_terminator] in H. apply andb_true_iff in H. destruct H as [H1 H2].
    apply negb_true_iff in H1.
    cbn [append readSerialCommands]. unfold readChar at 1. rewrite H1.
    rewrite IH by exact H2. cbn [inputBuffer set_inputBuffer].
    rewrite append_assoc. reflexivity.
Qed.

Lemma length_positive (line : string) :
  line <> "" -> (0 <? WString.length line)%Z = true.
Proof.
  intros H. destruct line as [| c r]; [congruence |].
  apply Z.ltb_lt. unfold WString.length. cbn [String.length]. lia.
Qed.

(** C5. When a terminator ends a non-empty line (the pending buffer followed
    by the characters received up to the terminator) in which [P] or [T]
    does not occur, exactly the line [Error: Invalid command format - ] with
    the line's text is added to the output, both targets and everything else
    except the buffer stay as they are, the buffer is emptied, and what
    follows the terminator is read from that state. *)
Theorem malformed_line_reported
    (chunk rest : string) (t : ascii) (s : Controller) :
  no_terminator chunk = true ->
  is_terminator t = true ->
  inputBuffer s ++ chunk <> "" ->
  ~ occurs "P" (inputBuffer s ++ chunk) \/ ~ occurs "T" (inputBuffer s ++ chunk) ->
  readSerialCommands (chunk ++ String t "") s =
    mkController (panAngle s) (tiltAngle s)
      (targetPanAngle s) (targetTiltAngle s) "" (lastMoveTime s)
      (serialOut s ++ "Error: Invalid command format - "
         ++ (inputBuffer s ++ chunk) ++ CRLF)
      (servoLog s) /\
  readSerialCommands (chunk ++ String t rest) s =
    readSerialCommands rest (readSerialCommands (chunk ++ String t "") s).
Proof.
  intros NT T NE M.
  assert (R : forall rest',
    readSerialCommands (chunk ++ String t rest') s =
    readSerialCommands rest'
      (mkController (panAngle s) (tiltAngle s)
         (targetPanAngle s) (targetTiltAngle s) "" (lastMoveTime s)
         (serialOut s ++ "Error: Invalid command format - "
            ++ (inputBuffer s ++ chunk) ++ CRLF)
         (servoLog s))).
  { intros rest'. rewrite read_chunk by exact NT.
    cbn [readSerialCommands]. unfold readChar. rewrite T.
    cbn [inputBuffer set_inputBuffer]. rewrite (length_positive _ NE).
    rewrite processCommand_rejects.
    - reflexivity.
    - destruct M as [M | M]; [left | right]; apply indexOf_absent, M. }
  split.
  - apply (R "").
  - rewrite (R rest), (R ""). reflexivity.
Qed.

Lemma malformed_line_reported_witness :
  readSerialCommands ("XYZ" ++ String "010" "") (setup power_on) =
    mkController 90 90 90 90 "" 0
      (BANNER ++ "Error: Invalid command format - XYZ" ++ CRLF)
      [(panServo, 90%Z); (tiltServo, 90%Z)] /\
  readSerialCommands ("XYZ" ++ String "010" "P10T20") (setup power_on) =
    readSerialCommands "P10T20"
      (readSerialCommands ("XYZ" ++ String "010" "") (setup power_on)).
Proof.
  refine (malformed_line_reported "XYZ" "P10T20" "010" (setup power_on)
            eq_refl eq_refl _ _).
  - discriminate.
  - left. unfold occurs. cbn. intros H.
    repeat (destruct H as [H | H]; [discriminate H |]). exact H.
Defined.

(** C10. A terminator read while the pending buffer is empty leaves the whole
    state as it is: nothing is printed and no target changes.  After any
    terminator the buffer is empty, so the second of two terminators in a
    row is such a no-op; in particular a line ended by a carriage return and
    a line feed is read as the line ended by the carriage return alone. *)
Theorem empty_line_ignored :
  (forall t s,
      is_terminator t = true -> inputBuffer s = "" ->
      readChar t s = s /\
      forall rest, readSerialCommands (String t rest) s
                   = readSerialCommands rest s) /\
  (forall t1 t2 s,
      is_terminator t1 = true -> is_terminator t2 = true ->
      readChar t2 (readChar t1 s) = readChar t1 s) /\
  (forall received s,
      readSerialCommands (received ++ CR ++ NL) s
      = readSerialCommands (received ++ CR) s).
Proof.
  assert (A : forall t s, is_terminator t = true -> inputBuffer s = "" ->
                          readChar t s = s).
  { intros t s T E. unfold readChar. rewrite T, E. reflexivity. }
  assert (B : forall t1 t2 s,
             is_terminator t1 = true -> is_terminator t2 = true ->
             readChar t2 (readChar t1 s) = readChar t1 s).
  { intros t1 t2 s T1 T2. apply A; [exact T2 |].
    unfold readChar. rewrite T1.
    destruct (0 <? WString.length (inputBuffer s))%Z eqn:L; [reflexivity |].
    destruct (inputBuffer s) as [| c r]; [reflexivity |].
    unfold WString.length in L. cbn [String.length] in L.
    apply Z.ltb_ge in L. lia. }
  split; [| split].
  - intros t s T E. split; [apply A; assumption |].
    intros rest. cbn [readSerialCommands]. rewrite A by assumption. reflexivity.
  - exact B.
  - intros received s. rewrite !readSerialCommands_app.
    unfold CR, NL. cbn [append readSerialCommands].
    apply B; reflexivity.
Qed.

Lemma empty_line_ignored_witness :
  (readChar "010" (setup power_on) = setup power_on /\
   readSerialCommands (String "010" "PT") (setup power_on)
   = readSerialCommands "PT" (setup power_on)) /\
  readChar "010" (readChar "013" large_move) = readChar "013" large_move /\
  readSerialCommands ("P90T45" ++ CR ++ NL) (setup power_on)
  = readSerialCommands ("P90T45" ++ CR) (setup power_on).
Proof.
  destruct empty_line_ignored as (A & B & C).
  split; [| split].
  - destruct (A "010"%char (setup power_on) eq_refl eq_refl) as [A1 A2].
    split; [exact A1 | exact (A2 "PT")].
  - exact (B "013"%char "010"%char large_move eq_refl eq_refl).
  - exact (C "P90T45" (setup power_on)).
Defined.

(** ** Printing with one decimal digit *)

Lemma Qfloor_unique (q : Q) (z : Z) :
  inject_Z z <= q -> q < inject_Z (z + 1) -> Qfloor q = z.
Proof.
  intros L U.
  pose proof (Qfloor_le q) as L'. pose proof (Qlt_floor q) as U'.
  assert (A : inject_Z z < inject_Z (Qfloor q + 1)) by lra.
  assert (B : inject_Z (Qfloor q) < inject_Z (z + 1)) by lra.
  rewrite <- Zlt_Qlt in A, B. lia.
Qed.

Lemma to_long_nonneg (q : Q) : 0 <= q -> Arduino.to_long q = Qfloor q.
Proof.
  intros H. unfold Arduino.to_long.
  destruct (Qleb 0 q) eqn:E; [reflexivity |].
  apply Qleb_false in E. lra.
Qed.

Lemma print_digit (d : Z) :
  (0 <= d < 10)%Z ->
  WString.print_ulong d = String (ascii_of_nat (48 + Z.to_nat d)) "".
Proof.
  intros H.
  assert (C : (d = 0 \/ d = 1 \/ d = 2 \/ d = 3 \/ d = 4 \/
               d = 5 \/ d = 6 \/ d = 7 \/ d = 8 \/ d = 9)%Z) by lia.
  repeat (destruct C as [C | C]; [subst d; reflexivity |]).
  subst d. reflexivity.
Qed.

(** For a value from 0 to 180, [printFloat] with one digit prints the value
    rounded to tenths. *)
Lemma printFloat_one_decimal (v : Q) :
  0 <= v -> v <= 180 -> WString.printFloat v 1 = one_decimal v.
Proof.
  intros L U. unfold WString.printFloat, one_decimal.
  rewrite (Qltb_intro_false 4294967040 v) by lra.
  rewrite (Qltb_intro_false v (-4294967040)) by lra.
  rewrite (Qltb_intro_false v 0) by lra.
  change ((1 # 2) / inject_Z (10 ^ Z.of_nat 1)) with (1 # 20).
  cbn [WString.print_fraction Nat.ltb Nat.leb append].
  set (x := v + (1 # 20)).
  set (T := Qfloor (v * 10 + (1 # 2))).
  assert (X0 : 0 <= x) by (unfold x; lra).
  rewrite (to_long_nonneg x X0).
  set (F := Qfloor x).
  pose proof (Qfloor_le x) as F1. pose proof (Qlt_floor x) as F2.
  fold F in F1, F2. rewrite inject_Z_plus in F2.
  pose proof (Qfloor_le (v * 10 + (1 # 2))) as T1.
  pose proof (Qlt_floor (v * 10 + (1 # 2))) as T2.
  fold T in T1, T2. rewrite inject_Z_plus in T2.
  assert (B1 : inject_Z (10 * F) < inject_Z (T + 1)).
  { rewrite inject_Z_mult, inject_Z_plus. unfold x in *.
    change (inject_Z 10) with 10. change (inject_Z 1) with 1 in *. lra. }
  assert (B2 : inject_Z T < inject_Z (10 * F + 10)).
  { rewrite inject_Z_plus, inject_Z_mult. unfold x in *.
    change (inject_Z 10) with 10. change (inject_Z 1) with 1 in *. lra. }
  rewrite <- Zlt_Qlt in B1, B2.
  assert (D : (T / 10 = F)%Z).
  { symmetry. apply (Z.div_unique T 10 F (T - 10 * F)); lia. }
  assert (M : (T mod 10 = T - 10 * F)%Z).
  { symmetry. apply (Z.mod_unique T 10 F (T - 10 * F)); lia. }
  assert (R : Arduino.to_long ((x - inject_Z F) * 10) = (T mod 10)%Z).
  { rewrite to_long_nonneg by lra. rewrite M.
    apply Qfloor_unique.
    - unfold Z.sub. rewrite inject_Z_plus, inject_Z_opp, inject_Z_mult.
      unfold x in *. change (inject_Z 10) with 10. lra.
    - unfold Z.sub. rewrite !inject_Z_plus, inject_Z_opp, inject_Z_mult.
      unfold x in *. change (inject_Z 10) with 10.
      change (inject_Z 1) with 1 in *. lra. }
  rewrite R, D, append_nil_r.
  rewrite (print_digit (T mod 10)) by (apply Z.mod_pos_bound; lia).
  reflexivity.
Qed.

Lemma read_line (chunk : string) (t : ascii) (s : Controller) :
  no_terminator chunk = true ->
  is_terminator t = true ->
  inputBuffer s ++ chunk <> "" ->
  readSerialCommands (chunk ++ String t "") s =
  set_inputBuffer ""
    (processCommand (inputBuffer s ++ chunk)
       (set_inputBuffer (inputBuffer s ++ chunk) s)).
Proof.
  intros NT T NE. rewrite read_chunk by exact NT.
  cbn [readSerialCommands]. unfold readChar. rewrite T.
  cbn [inputBuffer set_inputBuffer]. rewrite (length_positive _ NE).
  reflexivity.
Qed.

(** C7. For every line in which the first [T] comes before the first [P],
    the command is accepted; the pan substring, taken between the two
    positions, has no numeric prefix and parses to 0; the pan target
    published is 0 and the acknowledgment reports [P=0.0]. *)
Theorem tilt_marker_first (line : string) (s : Controller) :
  (0 <= WString.indexOf "T" line < WString.indexOf "P" line)%Z ->
  numeric_prefix
    (WString.substring (WString.indexOf "P" line + 1)
                       (WString.indexOf "T" line) line) = false /\
  WString.toFloat
    (WString.substring (WString.indexOf "P" line + 1)
                       (WString.indexOf "T" line) line) == 0 /\
  targetPanAngle (processCommand line s) == 0 /\
  exists tilt,
    serialOut (processCommand line s)
    = serialOut s ++ "OK: P=0.0, T=" ++ tilt ++ CRLF.
Proof.
  intros H. destruct (pan_substring_reversed line H) as [rest E].
  rewrite processCommand_accepts by lia. cbv zeta. rewrite E.
  cbn [targetPanAngle serialOut].
  repeat split; try reflexivity.
  eexists. reflexivity.
Qed.

Lemma tilt_marker_first_witness :
  targetPanAngle (processCommand "T45P90" (setup power_on)) == 0 /\
  exists tilt,
    serialOut (processCommand "T45P90" (setup power_on))
    = serialOut (setup power_on) ++ "OK: P=0.0, T=" ++ tilt ++ CRLF.
Proof.
  assert (H : (0 <= WString.indexOf "T" "T45P90"
               < WString.indexOf "P" "T45P90")%Z) by (vm_compute; split; congruence).
  exact (proj2 (proj2 (tilt_marker_first "T45P90" (setup power_on) H))).
Defined.

(** C8. The line [PT], read with an empty pending buffer, is acknowledged
    with [OK: P=0.0, T=0.0] and publishes the targets 0 and 0; and every
    string without a numeric prefix parses to 0. *)
Theorem empty_numbers_parse_to_zero :
  (forall s,
      inputBuffer s = "" ->
      readSerialCommands ("PT" ++ NL) s =
      mkController (panAngle s) (tiltAngle s) 0 0 "" (lastMoveTime s)
        (serialOut s ++ "OK: P=0.0, T=0.0" ++ CRLF) (servoLog s)) /\
  (forall str, numeric_prefix str = false -> WString.toFloat str == 0).
Proof.
  split; [| exact toFloat_no_prefix].
  intros s E. unfold NL.
  rewrite read_line; [| reflexivity | reflexivity | rewrite E; discriminate].
  rewrite E. cbn [append].
  rewrite processCommand_accepts by (vm_compute; discriminate).
  reflexivity.
Qed.

Lemma empty_numbers_parse_to_zero_witness :
  readSerialCommands ("PT" ++ NL) (setup power_on) =
    mkController 90 90 0 0 "" 0 (BANNER ++ "OK: P=0.0, T=0.0" ++ CRLF)
      [(panServo, 90%Z); (tiltServo, 90%Z)] /\
  WString.toFloat "T45P" == 0.
Proof.
  destruct empty_numbers_parse_to_zero as [A B].
  split.
  - exact (A (setup power_on) eq_refl).
  - exact (B "T45P" eq_refl).
Defined.

Lemma constrain_within (v lo hi : Q) :
  lo <= hi ->
  lo <= Arduino.constrain v lo hi /\ Arduino.constrain v lo hi <= hi.
Proof. unfold Arduino.constrain. intros H. split_comparisons; lra. Qed.

(** C9. The line [P200T-10], read with an empty pending buffer, publishes
    the targets 180 and 0 and is acknowledged with [OK: P=180.0, T=0.0].
    Every line with both markers publishes the two parsed values clamped to
    the limits and prints nothing but [OK: P=], the pan target with one
    decimal digit, [, T=], the tilt target with one decimal digit and the
    line end. *)
Theorem acknowledgment_reports_clamped_values :
  (forall s,
      inputBuffer s = "" ->
      readSerialCommands ("P200T-10" ++ NL) s =
      mkController (panAngle s) (tiltAngle s) 180 0 "" (lastMoveTime s)
        (serialOut s ++ "OK: P=180.0, T=0.0" ++ CRLF) (servoLog s)) /\
  (forall line s,
      (0 <= WString.indexOf "P" line)%Z ->
      (0 <= WString.indexOf "T" line)%Z ->
      targetPanAngle (processCommand line s) =
        Arduino.constrain
          (WString.toFloat
             (WString.substring (WString.indexOf "P" line + 1)
                                (WString.indexOf "T" line) line))
          PAN_MIN PAN_MAX /\
      targetTiltAngle (processCommand line s) =
        Arduino.constrain
          (WString.toFloat
             (WString.substring_from (WString.indexOf "T" line + 1) line))
          TILT_MIN TILT_MAX /\
      serialOut (processCommand line s) =
        serialOut s
          ++ "OK: P=" ++ one_decimal (targetPanAngle (processCommand line s))
          ++ ", T=" ++ one_decimal (targetTiltAngle (processCommand line s))
          ++ CRLF).
Proof.
  split.
  - intros s E. unfold NL.
    rewrite read_line; [| reflexivity | reflexivity | rewrite E; discriminate].
    rewrite E. cbn [append].
    rewrite processCommand_accepts by (vm_compute; discriminate).
    reflexivity.
  - intros line s P T. rewrite processCommand_accepts by assumption.
    cbv zeta. cbn [targetPanAngle targetTiltAngle serialOut].
    split; [reflexivity | split; [reflexivity |]].
    rewrite !printFloat_one_decimal;
      try (apply constrain_within; unfold PAN_MIN, PAN_MAX, TILT_MIN, TILT_MAX; lra).
    reflexivity.
Qed.

Lemma acknowledgment_reports_clamped_values_witness :
  readSerialCommands ("P200T-10" ++ NL) (setup power_on) =
    mkController 90 90 180 0 "" 0 (BANNER ++ "OK: P=180.0, T=0.0" ++ CRLF)
      [(panServo, 90%Z); (tiltServo, 90%Z)] /\
  serialOut (processCommand "P90T45.5" (setup power_on)) =
    serialOut (setup power_on)
      ++ "OK: P="
      ++ one_decimal (targetPanAngle (processCommand "P90T45.5" (setup power_on)))
      ++ ", T="
      ++ one_decimal (targetTiltAngle (processCommand "P90T45.5" (setup power_on)))
      ++ CRLF.
Proof.
  destruct acknowledgment_reports_clamped_values as [A B].
  split.
  - exact (A (setup power_on) eq_refl).
  - assert (P : (0 <= WString.indexOf "P" "P90T45.5")%Z)
      by (vm_compute; discriminate).
    assert (T : (0 <= WString.indexOf "T" "P90T45.5")%Z)
      by (vm_compute; discriminate).
    exact (proj2 (proj2 (B "P90T45.5" (setup power_on) P T))).
Defined.

(** ** The range invariant *)

Lemma limits_ordered (ax : Axis) : min_limit ax <= max_limit ax.
Proof. destruct ax; unfold min_limit, max_limit, PAN_MIN, PAN_MAX, TILT_MIN, TILT_MAX; lra. Qed.

Lemma within_limits_current_target (s s' : Controller) :
  (forall ax, current ax s' = current ax s) ->
  (forall ax, target ax s' = target ax s) ->
  angles_within_limits s -> angles_within_limits s'.
Proof.
  intros C T H ax. rewrite C, T. apply H.
Qed.

Lemma processCommand_within_limits (command : string) (s : Controller) :
  angles_within_limits s -> angles_within_limits (processCommand command s).
Proof.
  intros H.
  destruct (indexOf_range "P" command) as [P | P].
  { rewrite processCommand_rejects by (left; exact P).
    revert H. apply within_limits_current_target; intros []; reflexivity. }
  destruct (indexOf_range "T" command) as [T | T].
  { rewrite processCommand_rejects by (right; exact T).
    revert H. apply within_limits_current_target; intros []; reflexivity. }
  rewrite processCommand_accepts by lia. cbv zeta.
  intros ax. split.
  - destruct (H ax) as [C _]. destruct ax; exact C.
  - destruct ax; cbn [target targetPanAngle targetTiltAngle];
      apply constrain_within; [apply (limits_ordered Pan) | apply (limits_ordered Tilt)].
Qed.

Lemma readChar_within_limits (inChar : ascii) (s : Controller) :
  angles_within_limits s -> angles_within_limits (readChar inChar s).
Proof.
  intros H. unfold readChar.
  destruct (is_terminator inChar).
  - destruct (0 <? WString.length (inputBuffer s))%Z; [| exact H].
    apply (within_limits_current_target (processCommand (inputBuffer s) s));
      try (intros []; reflexivity).
    now apply processCommand_within_limits.
  - revert H. apply within_limits_current_target; intros []; reflexivity.
Qed.

Lemma updateServos_within_limits (now : Z) (s : Controller) :
  angles_within_limits s -> angles_within_limits (updateServos now s).
Proof.
  intros H ax. destruct (H ax) as [[C1 C2] [T1 T2]].
  rewrite updateServos_target. split; [| split; assumption].
  rewrite updateServos_current. destruct (too_early now s).
  { split; assumption. }
  destruct (approach_between (current ax s) (target ax s)) as [L U].
  split.
  - eapply Qle_trans; [| exact L]. now apply Q.min_glb.
  - eapply Qle_trans; [exact U |]. now apply Q.max_lub.
Qed.

Lemma setup_within_limits : angles_within_limits (setup power_on).
Proof.
  intros ax. unfold within_limits.
  destruct ax; cbn; unfold PAN_MIN, PAN_MAX, TILT_MIN, TILT_MAX; lra.
Qed.

(** C3. In every state the sketch reaches after [setup], whatever it reads
    and whenever [updateServos] runs, the current angle and the target angle
    of each axis lie between the axis's lower and upper limit, 0 and 180. *)
Theorem angles_stay_within_limits (s : Controller) :
  reachable s ->
  forall ax,
    (0 <= current ax s /\ current ax s <= 180) /\
    (0 <= target ax s /\ target ax s <= 180).
Proof.
  intros R.
  assert (H : angles_within_limits s).
  { induction R.
    - exact setup_within_limits.
    - now apply readChar_within_limits.
    - now apply updateServos_within_limits. }
  intros ax. specialize (H ax). unfold within_limits in H.
  destruct ax; exact H.
Qed.

Lemma run_reachable (passes : list (string * Z)) :
  forall s, reachable s -> reachable (run passes s).
Proof.
  induction passes as [| [available now] rest IH]; intros s R; [exact R |].
  cbn [run]. apply IH. unfold loop. apply reachable_updateServos.
  clear IH. revert s R.
  induction available as [| c available IHa]; intros s R; [exact R |].
  cbn [readSerialCommands]. apply IHa. now apply reachable_readChar.
Qed.

Lemma angles_stay_within_limits_witness :
  reachable after_clamped_command /\
  ((0 <= current Pan after_clamped_command
    /\ current Pan after_clamped_command <= 180) /\
   (0 <= target Pan after_clamped_command
    /\ target Pan after_clamped_command <= 180)) /\
  ((0 <= current Tilt after_clamped_command
    /\ current Tilt after_clamped_command <= 180) /\
   (0 <= target Tilt after_clamped_command
    /\ target Tilt after_clamped_command <= 180)).
Proof.
  assert (R : reachable after_clamped_command).
  { unfold after_clamped_command. apply run_reachable. exact reachable_setup. }
  split; [exact R |].
  split.
  - exact (angles_stay_within_limits after_clamped_command R Pan).
  - exact (angles_stay_within_limits after_clamped_command R Tilt).
Defined.

(** * Further properties of the sketch *)

(** ** What reaches the servos *)

Lemma round_within (x : Q) :
  0 <= x -> x <= 180 -> (0 <= Arduino.round x <= 180)%Z.
Proof.
  intros L U. unfold Arduino.round.
  rewrite (proj2 (Qle_bool_iff 0 x) L : Qleb 0 x = true).
  rewrite to_long_nonneg by lra. split.
  - change 0%Z with (Qfloor 0). apply Qfloor_resp_le. lra.
  - change 180%Z with (Qfloor (180 + (1 # 2))). apply Qfloor_resp_le. lra.
Qed.

Lemma processCommand_smoother_fields (command : string) (s : Controller) :
  panAngle (processCommand command s) = panAngle s /\
  tiltAngle (processCommand command s) = tiltAngle s /\
  lastMoveTime (processCommand command s) = lastMoveTime s /\
  servoLog (processCommand command s) = servoLog s /\
  inputBuffer (processCommand command s) = inputBuffer s.
Proof.
  destruct (indexOf_range "P" command) as [P | P].
  { rewrite processCommand_rejects by (left; exact P). repeat split. }
  destruct (indexOf_range "T" command) as [T | T].
  { rewrite processCommand_rejects by (right; exact T). repeat split. }
  rewrite processCommand_accepts by lia. repeat split.
Qed.

Lemma readChar_smoother_fields (inChar : ascii) (s : Controller) :
  panAngle (readChar inChar s) = panAngle s /\
  tiltAngle (readChar inChar s) = tiltAngle s /\
  lastMoveTime (readChar inChar s) = lastMoveTime s /\
  servoLog (readChar inChar s) = servoLog s.
Proof.
  unfold readChar. destruct (is_terminator inChar).
  - destruct (0 <? WString.length (inputBuffer s))%Z; [| repeat split].
    destruct (processCommand_smoother_fields (inputBuffer s) s)
      as (A & B & C & D & _).
    cbn [set_inputBuffer panAngle tiltAngle lastMoveTime servoLog].
    repeat split; assumption.
  - repeat split.
Qed.

Lemma updateServos_servoLog (now : Z) (s : Controller) :
  servoLog (updateServos now s) =
  (servoLog s ++
   (if too_early now s then []
    else
      (if must_move (panAngle s) (targetPanAngle s)
       then [(panServo, Arduino.round (approach (panAngle s) (targetPanAngle s)))]
       else []) ++
      (if must_move (tiltAngle s) (targetTiltAngle s)
       then [(tiltServo, Arduino.round (approach (tiltAngle s) (targetTiltAngle s)))]
       else [])))%list.
Proof.
  unfold updateServos. destruct (too_early now s).
  { now rewrite app_nil_r. }
  destruct (moveTilt_fields (movePan (set_lastMoveTime now s)))
    as (_ & _ & _ & _ & _ & _ & _ & T).
  destruct (movePan_fields (set_lastMoveTime now s))
    as (_ & P2 & _ & P4 & _ & _ & _ & P).
  rewrite P2, P4 in T. cbn [tiltAngle targetTiltAngle set_lastMoveTime] in T.
  cbn [panAngle targetPanAngle servoLog set_lastMoveTime] in P.
  rewrite P, <- app_assoc in T. exact T.
Qed.

(** X1. Every value the sketch passes to [Servo::write], in [setup] and in
    [updateServos], lies between 0 and 180. *)
Theorem servo_commands_within_range (s : Controller) :
  reachable s ->
  Forall (fun w => (0 <= snd w <= 180)%Z) (servoLog s).
Proof.
  intros R.
  assert (H : angles_within_limits s /\
              Forall (fun w => (0 <= snd w <= 180)%Z) (servoLog s)).
  { induction R as [| inChar s R [IH1 IH2] | now s R [IH1 IH2]].
    - split; [exact setup_within_limits |].
      cbn. repeat constructor; cbn; lia.
    - split; [now apply readChar_within_limits |].
      destruct (readChar_smoother_fields inChar s) as (_ & _ & _ & E).
      rewrite E. exact IH2.
    - split; [now apply updateServos_within_limits |].
      rewrite updateServos_servoLog. apply Forall_app. split; [exact IH2 |].
      destruct (too_early now s); [constructor |].
      pose proof (updateServos_within_limits now s IH1) as W.
      apply Forall_app. split.
      + destruct (must_move (panAngle s) (targetPanAngle s)); [| constructor].
        constructor; [| constructor]. cbn [snd].
        destruct (IH1 Pan) as [[C1 C2] [T1 T2]].
        destruct (approach_between (panAngle s) (targetPanAngle s)) as [L U].
        cbn [current target min_limit max_limit] in *.
        unfold PAN_MIN, PAN_MAX in *.
        apply round_within.
        * eapply Qle_trans; [| exact L]. now apply Q.min_glb.
        * eapply Qle_trans; [exact U |]. now apply Q.max_lub.
      + destruct (must_move (tiltAngle s) (targetTiltAngle s)); [| constructor].
        constructor; [| constructor]. cbn [snd].
        destruct (IH1 Tilt) as [[C1 C2] [T1 T2]].
        destruct (approach_between (tiltAngle s) (targetTiltAngle s)) as [L U].
        cbn [current target min_limit max_limit] in *.
        unfold TILT_MIN, TILT_MAX in *.
        apply round_within.
        * eapply Qle_trans; [| exact L]. now apply Q.min_glb.
        * eapply Qle_trans; [exact U |]. now apply Q.max_lub. }
  exact (proj2 H).
Qed.

Lemma servo_commands_within_range_witness :
  reachable after_clamped_command /\
  Forall (fun w => (0 <= snd w <= 180)%Z) (servoLog after_clamped_command).
Proof.
  assert (R : reachable after_clamped_command).
  { unfold after_clamped_command. apply run_reachable. exact reachable_setup. }
  split; [exact R | exact (servo_commands_within_range after_clamped_command R)].
Defined.

Lemma last_write_app (sv : Servo) (s s' : Controller) (l : list Z) :
  writes sv s' = (writes sv s ++ l)%list ->
  last_write sv s' =
  match rev l with [] => last_write sv s | v :: _ => Some v end.
Proof.
  intros E. unfold last_write. rewrite E, rev_app_distr.
  destruct (rev l); reflexivity.
Qed.

Lemma readChar_current (ax : Axis) (inChar : ascii) (s : Controller) :
  current ax (readChar inChar s) = current ax s.
Proof.
  destruct (readChar_smoother_fields inChar s) as (A & B & _).
  destruct ax; assumption.
Qed.

Lemma readChar_writes (sv : Servo) (inChar : ascii) (s : Controller) :
  writes sv (readChar inChar s) = writes sv s.
Proof.
  destruct (readChar_smoother_fields inChar s) as (_ & _ & _ & E).
  unfold writes. now rewrite E.
Qed.

Lemma last_write_reachable (s : Controller) :
  reachable s ->
  forall ax, last_write (servo_of ax) s = Some (Arduino.round (current ax s)).
Proof.
  intros R. induction R as [| inChar s R IH | now s R IH]; intros ax.
  - destruct ax; reflexivity.
  - unfold last_write. rewrite readChar_writes, readChar_current. apply IH.
  - rewrite (last_write_app _ _ _ _ (updateServos_writes ax now s)).
    rewrite updateServos_current.
    destruct (too_early now s); [apply IH |].
    unfold approach at 2.
    destruct (must_move (current ax s) (target ax s)) eqn:M.
    + cbn [rev app]. unfold approach. rewrite M. reflexivity.
    + cbn [rev]. apply IH.
Qed.

(** X2. In every state the sketch reaches, the value written last to each servo
    is the current angle of its axis, rounded to a whole degree. *)
Theorem servo_follows_current (s : Controller) :
  reachable s ->
  forall ax, last_write (servo_of ax) s = Some (Arduino.round (current ax s)).
Proof. exact (last_write_reachable s). Qed.

Lemma servo_follows_current_witness :
  reachable after_clamped_command /\
  last_write (servo_of Pan) after_clamped_command
  = Some (Arduino.round (current Pan after_clamped_command)) /\
  last_write (servo_of Tilt) after_clamped_command
  = Some (Arduino.round (current Tilt after_clamped_command)).
Proof.
  assert (R : reachable after_clamped_command).
  { unfold after_clamped_command. apply run_reachable. exact reachable_setup. }
  split; [exact R |]. split.
  - exact (servo_follows_current after_clamped_command R Pan).
  - exact (servo_follows_current after_clamped_command R Tilt).
Defined.

(** ** The clock *)

Lemma updateServos_lastMoveTime (now : Z) (s : Controller) :
  lastMoveTime (updateServos now s) =
  if too_early now s then lastMoveTime s else now.
Proof.
  unfold updateServos. destruct (too_early now s); [reflexivity |].
  destruct (moveTilt_fields (movePan (set_lastMoveTime now s)))
    as (_ & _ & _ & _ & _ & T & _).
  destruct (movePan_fields (set_lastMoveTime now s))
    as (_ & _ & _ & _ & _ & P & _).
  rewrite T, P. reflexivity.
Qed.

(** X3. After a call of [updateServos] that moved the clock mark to [now], a
    call at a clock value less than [MOVE_INTERVAL] later (modulo 2^32)
    changes nothing: two updates of the angles are never closer than
    [MOVE_INTERVAL] milliseconds. *)
Theorem updates_are_spaced (now later : Z) (s : Controller) :
  too_early now s = false ->
  ((later - now) mod ULONG_MOD < MOVE_INTERVAL)%Z ->
  updateServos later (updateServos now s) = updateServos now s.
Proof.
  intros D H. unfold updateServos at 1.
  replace (too_early later (updateServos now s)) with true; [reflexivity |].
  symmetry. unfold too_early. rewrite updateServos_lastMoveTime, D.
  apply Z.ltb_lt, H.
Qed.

Lemma updates_are_spaced_witness :
  updateServos 9 (updateServos 5 large_move) = updateServos 5 large_move.
Proof.
  exact (updates_are_spaced 5 9 large_move eq_refl eq_refl).
Defined.

(** X4. [updateServos] goes by the time elapsed since the last update, also
    when the millisecond counter has wrapped around 2^32 in between: called
    [elapsed] milliseconds after the last update, it leaves the state as it
    is when [elapsed] is below [MOVE_INTERVAL], and otherwise marks the
    clock value and makes one step on each axis. *)
Theorem clock_wraparound (ax : Axis) (elapsed : Z) (s : Controller) :
  (0 <= elapsed < ULONG_MOD)%Z ->
  if (elapsed <? MOVE_INTERVAL)%Z
  then updateServos ((lastMoveTime s + elapsed) mod ULONG_MOD) s = s
  else
    lastMoveTime (updateServos ((lastMoveTime s + elapsed) mod ULONG_MOD) s)
    = ((lastMoveTime s + elapsed) mod ULONG_MOD)%Z /\
    current ax (updateServos ((lastMoveTime s + elapsed) mod ULONG_MOD) s)
    = approach (current ax s) (target ax s).
Proof.
  intros H.
  assert (E : too_early ((lastMoveTime s + elapsed) mod ULONG_MOD) s
              = (elapsed <? MOVE_INTERVAL)%Z).
  { unfold too_early. rewrite Zminus_mod_idemp_l.
    replace (lastMoveTime s + elapsed - lastMoveTime s)%Z with elapsed by ring.
    rewrite Z.mod_small by exact H. reflexivity. }
  destruct (elapsed <? MOVE_INTERVAL)%Z.
  - unfold updateServos. rewrite E. reflexivity.
  - split.
    + rewrite updateServos_lastMoveTime, E. reflexivity.
    + rewrite updateServos_current, E. reflexivity.
Qed.

Lemma clock_wraparound_witness :
  lastMoveTime
    (updateServos ((lastMoveTime (set_lastMoveTime 4294967294 large_move) + 5)
                   mod ULONG_MOD)
       (set_lastMoveTime 4294967294 large_move))
  = ((lastMoveTime (set_lastMoveTime 4294967294 large_move) + 5) mod ULONG_MOD)%Z /\
  current Tilt
    (updateServos ((lastMoveTime (set_lastMoveTime 4294967294 large_move) + 5)
                   mod ULONG_MOD)
       (set_lastMoveTime 4294967294 large_move))
  = approach (current Tilt (set_lastMoveTime 4294967294 large_move))
             (target Tilt (set_lastMoveTime 4294967294 large_move)).
Proof.
  refine (clock_wraparound Tilt 5 (set_lastMoveTime 4294967294 large_move) _).
  unfold ULONG_MOD. lia.
Defined.

(** ** Which way a tick moves an axis *)

Lemma ticks_app (first : list Z) :
  forall (rest : list Z) (s : Controller),
    ticks (first ++ rest) s = ticks rest (ticks first s).
Proof.
  induction first as [| t first IH]; intros rest s; [reflexivity |].
  cbn [app ticks]. apply IH.
Qed.

Lemma ticks_same_side (ax : Axis) (times : list Z) :
  forall s,
    (target ax s <= current ax s ->
     target ax s <= current ax (ticks times s) /\
     current ax (ticks times s) <= current ax s) /\
    (current ax s <= target ax s ->
     current ax s <= current ax (ticks times s) /\
     current ax (ticks times s) <= target ax s).
Proof.
  induction times as [| t times IH]; intros s; cbn [ticks].
  - split; intros; split; lra.
  - destruct (IH (updateServos t s)) as [I1 I2].
    rewrite updateServos_target in I1, I2.
    revert I1 I2. rewrite updateServos_current.
    destruct (too_early t s); [tauto |].
    destruct (approach_between (current ax s) (target ax s)) as [L U].
    intros I1 I2. split; intros H.
    + rewrite (Q.min_r _ _ H) in L. rewrite (Q.max_l _ _ H) in U.
      destruct (I1 L) as [C D]. split; lra.
    + rewrite (Q.min_l _ _ H) in L. rewrite (Q.max_r _ _ H) in U.
      destruct (I2 U) as [C D]. split; lra.
Qed.

(** X6. With the target fixed, an axis never turns back: over any calls of
    [updateServos], followed by any further calls, an angle above the
    target only decreases and stays at or above it, and an angle below the
    target only increases and stays at or below it. *)
Theorem no_oscillation (ax : Axis) (times further : list Z) (s : Controller) :
  (target ax s <= current ax s ->
   target ax s <= current ax (ticks (times ++ further) s) /\
   current ax (ticks (times ++ further) s) <= current ax (ticks times s) /\
   current ax (ticks times s) <= current ax s) /\
  (current ax s <= target ax s ->
   current ax s <= current ax (ticks times s) /\
   current ax (ticks times s) <= current ax (ticks (times ++ further) s) /\
   current ax (ticks (times ++ further) s) <= target ax s).
Proof.
  rewrite ticks_app.
  destruct (ticks_same_side ax times s) as [A1 A2].
  destruct (ticks_same_side ax further (ticks times s)) as [B1 B2].
  rewrite ticks_target in B1, B2.
  split; intros H.
  - destruct (A1 H) as [C D]. destruct (B1 C) as [E F]. tauto.
  - destruct (A2 H) as [C D]. destruct (B2 D) as [E F]. tauto.
Qed.

Lemma no_oscillation_witness :
  target Tilt large_move <= current Tilt large_move /\
  target Tilt large_move
  <= current Tilt (ticks ([5; 10]%Z ++ [15; 20]%Z)%list large_move) /\
  current Tilt (ticks ([5; 10]%Z ++ [15; 20]%Z)%list large_move)
  <= current Tilt (ticks [5; 10]%Z large_move) /\
  current Tilt (ticks [5; 10]%Z large_move) <= current Tilt large_move.
Proof.
  assert (H : target Tilt large_move <= current Tilt large_move)
    by (vm_compute; discriminate).
  split; [exact H |].
  exact (proj1 (no_oscillation Tilt [5; 10]%Z [15; 20]%Z large_move) H).
Defined.

(** ** Resting position *)

Lemma Qfloor_plus_one (q : Q) : Qfloor (q + 1) = (Qfloor q + 1)%Z.
Proof.
  apply Qfloor_unique.
  - rewrite inject_Z_plus. pose proof (Qfloor_le q). change (inject_Z 1) with 1. lra.
  - rewrite !inject_Z_plus. pose proof (Qlt_floor q) as H.
    rewrite inject_Z_plus in H. change (inject_Z 1) with 1 in *. lra.
Qed.

Lemma round_nonneg (x : Q) : 0 <= x -> Arduino.round x = Qfloor (x + (1 # 2)).
Proof.
  intros H. unfold Arduino.round.
  rewrite (proj2 (Qle_bool_iff 0 x) H : Qleb 0 x = true).
  apply to_long_nonneg. lra.
Qed.

Lemma round_close (x y : Q) :
  0 <= x -> 0 <= y -> Qabs (y - x) <= 1 ->
  (Z.abs (Arduino.round x - Arduino.round y) <= 1)%Z.
Proof.
  intros X Y. apply Qabs_case; intros A B.
  - rewrite !round_nonneg by assumption.
    assert (L : (Qfloor (x + (1 # 2)) <= Qfloor (y + (1 # 2)))%Z)
      by (apply Qfloor_resp_le; lra).
    assert (U : (Qfloor (y + (1 # 2)) <= Qfloor (x + (1 # 2) + 1))%Z)
      by (apply Qfloor_resp_le; lra).
    rewrite Qfloor_plus_one in U. lia.
  - rewrite !round_nonneg by assumption.
    assert (L : (Qfloor (y + (1 # 2)) <= Qfloor (x + (1 # 2)))%Z)
      by (apply Qfloor_resp_le; lra).
    assert (U : (Qfloor (x + (1 # 2)) <= Qfloor (y + (1 # 2) + 1))%Z)
      by (apply Qfloor_resp_le; lra).
    rewrite Qfloor_plus_one in U. lia.
Qed.

Lemma readSerialCommands_reachable (available : string) :
  forall s, reachable s -> reachable (readSerialCommands available s).
Proof.
  induction available as [| c available IH]; intros s R; [exact R |].
  cbn [readSerialCommands]. apply IH. now apply reachable_readChar.
Qed.

(** X7. In every state the sketch reaches, an axis whose distance to the target
    is at or below [MIN_STEP], where [updateServos] no longer moves it, has
    its servo set to a whole degree that differs from the target rounded to
    a whole degree by at most one. *)
Theorem resting_servo_within_one_degree (ax : Axis) (s : Controller) :
  reachable s ->
  distance ax s <= MIN_STEP ->
  exists v,
    last_write (servo_of ax) s = Some v /\
    (Z.abs (v - Arduino.round (target ax s)) <= 1)%Z.
Proof.
  intros R H. exists (Arduino.round (current ax s)).
  split; [apply last_write_reachable, R |].
  assert (W : angles_within_limits s).
  { clear H. induction R.
    - exact setup_within_limits.
    - now apply readChar_within_limits.
    - now apply updateServos_within_limits. }
  destruct (W ax) as [[C1 _] [T1 _]].
  apply round_close.
  - destruct ax; exact C1.
  - destruct ax; exact T1.
  - unfold distance, MIN_STEP in H. lra.
Qed.

Lemma resting_servo_within_one_degree_witness :
  reachable near_target /\
  distance Pan near_target <= MIN_STEP /\
  exists v,
    last_write (servo_of Pan) near_target = Some v /\
    (Z.abs (v - Arduino.round (target Pan near_target)) <= 1)%Z.
Proof.
  assert (R : reachable near_target).
  { unfold near_target. apply readSerialCommands_reachable. exact reachable_setup. }
  assert (H : distance Pan near_target <= MIN_STEP) by (vm_compute; discriminate).
  split; [exact R | split; [exact H |]].
  exact (resting_servo_within_one_degree Pan near_target R H).
Defined.

(** ** The pending buffer and the response lines *)

Lemma no_terminator_app (a b : string) :
  no_terminator (a ++ b) = no_terminator a && no_terminator b.
Proof.
  induction a as [| c a IH]; [reflexivity |].
  cbn [append no_terminator]. rewrite IH. apply andb_assoc.
Qed.

Lemma readChar_no_terminator (inChar : ascii) (s : Controller) :
  no_terminator (inputBuffer s) = true ->
  no_terminator (inputBuffer (readChar inChar s)) = true.
Proof.
  intros H. unfold readChar. destruct (is_terminator inChar) eqn:T.
  - destruct (0 <? WString.length (inputBuffer s))%Z; [reflexivity | exact H].
  - cbn [inputBuffer set_inputBuffer]. rewrite no_terminator_app, H.
    cbn [no_terminator]. rewrite T. reflexivity.
Qed.

(** X8. In every state the sketch reaches, the pending buffer holds no line
    feed and no carriage return. *)
Theorem buffer_holds_no_terminator (s : Controller) :
  reachable s -> no_terminator (inputBuffer s) = true.
Proof.
  intros R. induction R as [| inChar s R IH | now s R IH].
  - reflexivity.
  - now apply readChar_no_terminator.
  - destruct (updateServos_serial now s) as [_ E]. rewrite E. exact IH.
Qed.

Lemma buffer_holds_no_terminator_witness :
  reachable (readSerialCommands ("P90" ++ CR ++ "T4") (setup power_on)) /\
  no_terminator
    (inputBuffer (readSerialCommands ("P90" ++ CR ++ "T4") (setup power_on)))
  = true.
Proof.
  assert (R : reachable (readSerialCommands ("P90" ++ CR ++ "T4") (setup power_on))).
  { apply readSerialCommands_reachable. exact reachable_setup. }
  split; [exact R | exact (buffer_holds_no_terminator _ R)].
Defined.

Lemma count_lf_app (a b : string) :
  count_lf (a ++ b) = (count_lf a + count_lf b)%nat.
Proof.
  induction a as [| c a IH]; [reflexivity |].
  cbn [append count_lf]. rewrite IH. lia.
Qed.

Lemma count_lf_no_terminator (a : string) :
  no_terminator a = true -> count_lf a = O.
Proof.
  induction a as [| c a IH]; [reflexivity |].
  cbn [no_terminator count_lf]. intros H.
  apply andb_true_iff in H. destruct H as [H1 H2].
  rewrite (IH H2). unfold is_terminator in H1.
  apply negb_true_iff, orb_false_iff in H1. destruct H1 as [H1 _].
  rewrite H1. reflexivity.
Qed.

Lemma count_lf_digits (d : Decimal.uint) :
  count_lf (NilEmpty.string_of_uint d) = O.
Proof. induction d; cbn; assumption || reflexivity. Qed.

Lemma count_lf_print_ulong (n : Z) : count_lf (WString.print_ulong n) = O.
Proof.
  unfold WString.print_ulong, NilZero.string_of_uint.
  destruct (N.to_uint (Z.to_N n)) eqn:E; try reflexivity;
    rewrite <- E; cbn; apply count_lf_digits.
Qed.

Lemma count_lf_one_decimal (v : Q) : count_lf (one_decimal v) = O.
Proof.
  unfold one_decimal. rewrite !count_lf_app, count_lf_print_ulong.
  set (t := Qfloor (v * 10 + (1 # 2))).
  assert (B : (0 <= t mod 10 < 10)%Z) by (apply Z.mod_pos_bound; lia).
  assert (C : (t mod 10 = 0 \/ t mod 10 = 1 \/ t mod 10 = 2 \/ t mod 10 = 3 \/
               t mod 10 = 4 \/ t mod 10 = 5 \/ t mod 10 = 6 \/ t mod 10 = 7 \/
               t mod 10 = 8 \/ t mod 10 = 9)%Z) by lia.
  repeat (destruct C as [C | C]; [rewrite C; reflexivity |]).
  rewrite C. reflexivity.
Qed.

Lemma processCommand_one_line (command : string) (s : Controller) :
  no_terminator command = true ->
  count_lf (serialOut (processCommand command s))
  = S (count_lf (serialOut s)).
Proof.
  intros H.
  destruct (indexOf_range "P" command) as [P | P];
    [| destruct (indexOf_range "T" command) as [T | T]].
  - rewrite processCommand_rejects by (left; exact P). cbn [serialOut].
    rewrite !count_lf_app, (count_lf_no_terminator _ H). cbn. lia.
  - rewrite processCommand_rejects by (right; exact T). cbn [serialOut].
    rewrite !count_lf_app, (count_lf_no_terminator _ H). cbn. lia.
  - rewrite processCommand_accepts by lia. cbv zeta. cbn [serialOut].
    rewrite !printFloat_one_decimal;
      try (apply constrain_within; unfold PAN_MIN, PAN_MAX, TILT_MIN, TILT_MAX; lra).
    rewrite !count_lf_app, !count_lf_one_decimal. cbn. lia.
Qed.

Lemma nonempty_length (str : string) :
  (0 <? WString.length str)%Z = nonempty str.
Proof.
  destruct str as [| c r]; [reflexivity |].
  apply Z.ltb_lt. unfold WString.length. cbn [String.length]. lia.
Qed.

(** X9. Reading any bytes adds to the serial output exactly one line for every
    terminator that ends a non-empty line, and nothing for the other
    bytes: each command gets one response line, an acknowledgment or an
    error, and empty lines get none. *)
Theorem one_response_per_line (bytes : string) :
  forall s,
    no_terminator (inputBuffer s) = true ->
    count_lf (serialOut (readSerialCommands bytes s))
    = (count_lf (serialOut s)
       + completed_lines (nonempty (inputBuffer s)) bytes)%nat.
Proof.
  induction bytes as [| c bytes IH]; intros s H.
  - cbn. lia.
  - cbn [readSerialCommands completed_lines].
    rewrite (IH _ (readChar_no_terminator c s H)).
    unfold readChar. destruct (is_terminator c) eqn:T.
    + rewrite nonempty_length. destruct (nonempty (inputBuffer s)) eqn:N.
      * cbn [inputBuffer serialOut set_inputBuffer nonempty].
        rewrite (processCommand_one_line _ _ H). lia.
      * destruct (inputBuffer s); [cbn; lia | discriminate].
    + cbn [inputBuffer serialOut set_inputBuffer].
      destruct (inputBuffer s); cbn [append nonempty]; lia.
Qed.

Lemma one_response_per_line_witness :
  count_lf (serialOut (readSerialCommands
                         ("P90T45" ++ CR ++ NL ++ NL ++ "XYZ" ++ NL ++ "P1")
                         (setup power_on)))
  = (count_lf (serialOut (setup power_on))
     + completed_lines (nonempty (inputBuffer (setup power_on)))
         ("P90T45" ++ CR ++ NL ++ NL ++ "XYZ" ++ NL ++ "P1"))%nat.
Proof.
  exact (one_response_per_line
           ("P90T45" ++ CR ++ NL ++ NL ++ "XYZ" ++ NL ++ "P1")
           (setup power_on) eq_refl).
Defined.

(** ** Decoder and smoother keep apart *)

Lemma readSerialCommands_smoother_fields (available : string) :
  forall s,
    panAngle (readSerialCommands available s) = panAngle s /\
    tiltAngle (readSerialCommands available s) = tiltAngle s /\
    lastMoveTime (readSerialCommands available s) = lastMoveTime s /\
    servoLog (readSerialCommands available s) = servoLog s.
Proof.
  induction available as [| c available IH]; intros s; [repeat split |].
  cbn [readSerialCommands].
  destruct (IH (readChar c s)) as (A & B & C & D).
  destruct (readChar_smoother_fields c s) as (A' & B' & C' & D').
  repeat split; congruence.
Qed.

(** X10. Reading bytes, whatever they are, moves nothing: the current angles,
    the time of the last update and the log of servo writes stay as they
    are. *)
Theorem reading_moves_nothing (available : string) (s : Controller) :
  (forall ax, current ax (readSerialCommands available s) = current ax s) /\
  lastMoveTime (readSerialCommands available s) = lastMoveTime s /\
  servoLog (readSerialCommands available s) = servoLog s.
Proof.
  destruct (readSerialCommands_smoother_fields available s) as (A & B & C & D).
  split; [intros []; assumption | split; assumption].
Qed.

Lemma processCommand_view (command : string) (s1 s2 : Controller) :
  decoder_view s1 = decoder_view s2 ->
  decoder_view (processCommand command s1)
  = decoder_view (processCommand command s2).
Proof.
  unfold decoder_view. intros E. injection E as E1 E2 E3 E4.
  destruct (indexOf_range "P" command) as [P | P];
    [| destruct (indexOf_range "T" command) as [T | T]].
  - rewrite !processCommand_rejects by (left; exact P).
    cbn [targetPanAngle targetTiltAngle inputBuffer serialOut]. congruence.
  - rewrite !processCommand_rejects by (right; exact T).
    cbn [targetPanAngle targetTiltAngle inputBuffer serialOut]. congruence.
  - rewrite !processCommand_accepts by lia. cbv zeta.
    cbn [targetPanAngle targetTiltAngle inputBuffer serialOut]. congruence.
Qed.

Lemma readChar_view (inChar : ascii) (s1 s2 : Controller) :
  decoder_view s1 = decoder_view s2 ->
  decoder_view (readChar inChar s1) = decoder_view (readChar inChar s2).
Proof.
  intros E. pose proof E as E'.
  unfold decoder_view in E'. injection E' as E1 E2 E3 E4.
  unfold readChar. rewrite E3. destruct (is_terminator inChar).
  - destruct (0 <? WString.length (inputBuffer s2))%Z; [| exact E].
    pose proof (processCommand_view (inputBuffer s2) s1 s2 E) as V.
    unfold decoder_view in *. injection V as V1 V2 V3 V4.
    cbn [targetPanAngle targetTiltAngle inputBuffer serialOut set_inputBuffer].
    congruence.
  - unfold decoder_view.
    cbn [targetPanAngle targetTiltAngle inputBuffer serialOut set_inputBuffer].
    congruence.
Qed.

Lemma readSerialCommands_view (available : string) :
  forall s1 s2,
    decoder_view s1 = decoder_view s2 ->
    decoder_view (readSerialCommands available s1)
    = decoder_view (readSerialCommands available s2).
Proof.
  induction available as [| c available IH]; intros s1 s2 E; [exact E |].
  cbn [readSerialCommands]. apply IH. now apply readChar_view.
Qed.

Lemma updateServos_view (now : Z) (s : Controller) :
  decoder_view (updateServos now s) = decoder_view s.
Proof.
  unfold decoder_view.
  destruct (updateServos_serial now s) as [A B].
  rewrite A, B, (updateServos_target Pan now s : targetPanAngle _ = _),
    (updateServos_target Tilt now s : targetTiltAngle _ = _).
  reflexivity.
Qed.

(** X11. The targets, the pending buffer and the serial output after any passes
    of [loop] are those of reading all the bytes at once: how the bytes are
    spread over the passes and when [updateServos] runs in between makes no
    difference to the decoder. *)
Theorem decoder_ignores_passes (passes : list (string * Z)) :
  forall s,
    decoder_view (run passes s)
    = decoder_view (readSerialCommands (received passes) s).
Proof.
  induction passes as [| [available now] rest IH]; intros s; [reflexivity |].
  cbn [run received]. rewrite IH, readSerialCommands_app.
  apply readSerialCommands_view. unfold loop. apply updateServos_view.
Qed.

(** ** Commands for whole degrees *)

Lemma digits_value_pos (d : Decimal.uint) :
  forall acc : positive,
    digits_value (Z.pos acc) d = Z.pos (Pos.of_uint_acc d acc).
Proof.
  induction d; intros acc; cbn [digits_value Pos.of_uint_acc];
    try reflexivity;
    match goal with
    | |- digits_value ?a _ = Z.pos (Pos.of_uint_acc _ ?b) =>
        replace a with (Z.pos b) by lia
    end; apply IHd.
Qed.

Lemma digits_value_zero (d : Decimal.uint) :
  digits_value 0 d = Z.of_N (Pos.of_uint d).
Proof.
  induction d; cbn [digits_value Pos.of_uint]; try reflexivity;
    try exact IHd;
    match goal with
    | |- digits_value ?a _ = Z.of_N (N.pos (Pos.of_uint_acc _ ?b)) =>
        change a with (Z.pos b)
    end; apply digits_value_pos.
Qed.

(** Reading the digits of a decimal numeral gives its value, up to where
    the digits stop. *)
Lemma read_digits_of_uint (d : Decimal.uint) (rest : string) :
  (forall acc cnt, WString.read_digits acc cnt rest = (acc, cnt, rest)) ->
  forall acc cnt,
    exists k,
      WString.read_digits acc cnt (NilEmpty.string_of_uint d ++ rest)
      = (digits_value acc d, k, rest).
Proof.
  intros Stop. induction d; intros acc cnt;
    cbn [NilEmpty.string_of_uint append digits_value];
    try (exists cnt; apply Stop);
    match goal with
    | |- exists k, WString.read_digits _ _ (String _ ?t) = (digits_value ?a _, _, _) =>
        change (exists k, WString.read_digits a (cnt + 1) t = (digits_value a d, k, rest))
    end; apply IHd.
Qed.

Lemma print_ulong_digits (n : Z) :
  WString.print_ulong n = NilEmpty.string_of_uint (N.to_uint (Z.to_N n)) /\
  exists c r, WString.print_ulong n = String c r /\ WString.isdigit c = true.
Proof.
  unfold WString.print_ulong, NilZero.string_of_uint.
  destruct (N.to_uint (Z.to_N n)) eqn:E.
  - exfalso. destruct (Z.to_N n); [discriminate E |].
    exact (DecimalPos.Unsigned.to_uint_nonnil _ E).
  - split; [reflexivity |]. cbn. eauto.
  - split; [reflexivity |]. cbn. eauto.
  - split; [reflexivity |]. cbn. eauto.
  - split; [reflexivity |]. cbn. eauto.
  - split; [reflexivity |]. cbn. eauto.
  - split; [reflexivity |]. cbn. eauto.
  - split; [reflexivity |]. cbn. eauto.
  - split; [reflexivity |]. cbn. eauto.
  - split; [reflexivity |]. cbn. eauto.
  - split; [reflexivity |]. cbn. eauto.
Qed.

Lemma digit_is_plain (c : ascii) :
  WString.isdigit c = true ->
  WString.isspace c = false /\ Ascii.eqb c "-" = false /\
  Ascii.eqb c "+" = false /\ Ascii.eqb c "." = false /\
  Ascii.eqb c "P" = false /\ Ascii.eqb c "T" = false.
Proof.
  intros H. repeat split;
    try (destruct (Ascii.eqb_spec c "-"); [subst; discriminate H | reflexivity]);
    try (destruct (Ascii.eqb_spec c "+"); [subst; discriminate H | reflexivity]);
    try (destruct (Ascii.eqb_spec c "."); [subst; discriminate H | reflexivity]);
    try (destruct (Ascii.eqb_spec c "P"); [subst; discriminate H | reflexivity]);
    try (destruct (Ascii.eqb_spec c "T"); [subst; discriminate H | reflexivity]).
  unfold WString.isdigit, WString.isspace in *.
  apply andb_true_iff in H. destruct H as [H1 H2].
  apply Nat.leb_le in H1. apply Nat.leb_le in H2.
  apply orb_false_iff. split.
  - apply Nat.eqb_neq. lia.
  - apply andb_false_iff. right. apply Nat.leb_gt. lia.
Qed.

(** Parsing the decimal numeral of a whole number gives the number. *)
Lemma toFloat_print_ulong (n : Z) :
  (0 <= n)%Z -> WString.toFloat (WString.print_ulong n) == inject_Z n.
Proof.
  intros N0.
  destruct (print_ulong_digits n) as [E (c & r & F & D)].
  destruct (digit_is_plain c D) as (S1 & S2 & S3 & _).
  unfold WString.toFloat. rewrite F.
  cbn [WString.skip_space]. rewrite S1.
  cbn [WString.read_sign]. rewrite S2, S3.
  rewrite <- F, E.
  destruct (read_digits_of_uint (N.to_uint (Z.to_N n)) ""
              (fun _ _ => eq_refl) 0%Z 0%Z) as [k R].
  rewrite append_nil_r in R. rewrite R.
  replace (if (k + 0 =? 0)%Z then 0%Z else WString.read_exponent "")
    with 0%Z by (destruct (k + 0 =? 0)%Z; reflexivity).
  rewrite digits_value_zero.
  change (Pos.of_uint (N.to_uint (Z.to_N n))) with (N.of_uint (N.to_uint (Z.to_N n))).
  rewrite DecimalN.Unsigned.of_to, Z2N.id by exact N0.
  change (10 ^ (0 - 0)) with 1. ring.
Qed.

Lemma string_length_app (a b : string) :
  String.length (a ++ b) = (String.length a + String.length b)%nat.
Proof. induction a as [| c a IH]; cbn; [reflexivity | now rewrite IH]. Qed.

Lemma substring_whole (a : string) :
  String.substring 0 (String.length a) a = a.
Proof. induction a as [| c a IH]; cbn; [reflexivity | now rewrite IH]. Qed.

Lemma substring_prefix (a b : string) :
  String.substring 0 (String.length a) (a ++ b) = a.
Proof.
  induction a as [| c a IH]; cbn.
  - destruct b; reflexivity.
  - now rewrite IH.
Qed.

Lemma substring_skip (a b : string) (n m : nat) :
  String.substring (String.length a + n) m (a ++ b) = String.substring n m b.
Proof. induction a as [| c a IH]; cbn; [reflexivity | exact IH]. Qed.

Lemma WString_substring_inside (lo hi : Z) (s : string) :
  (0 <= lo <= hi)%Z -> (hi <= WString.length s)%Z -> (lo < WString.length s)%Z ->
  WString.substring lo hi s
  = String.substring (Z.to_nat lo) (Z.to_nat (hi - lo)) s.
Proof.
  intros H1 H2 H3. unfold WString.substring.
  replace (hi <? lo)%Z with false by (symmetry; apply Z.ltb_ge; lia).
  replace (WString.length s <=? lo)%Z with false by (symmetry; apply Z.leb_gt; lia).
  replace (WString.length s <? hi)%Z with false by (symmetry; apply Z.ltb_ge; lia).
  reflexivity.
Qed.

Lemma indexOf_after_digits (c : ascii) (d : Decimal.uint) (rest : string) :
  WString.isdigit c = false ->
  WString.indexOf c (NilEmpty.string_of_uint d ++ String c rest)
  = Z.of_nat (String.length (NilEmpty.string_of_uint d)).
Proof.
  intros H. induction d;
    cbn [NilEmpty.string_of_uint append WString.indexOf String.length];
    try (rewrite Ascii.eqb_refl; reflexivity);
    match goal with
    | |- context [Ascii.eqb ?k c] =>
        destruct (Ascii.eqb_spec k c) as [K | K];
        [rewrite <- K in H; discriminate H |]
    end;
    rewrite IHd;
    match goal with
    | |- context [(Z.of_nat ?n <? 0)%Z] =>
        replace (Z.of_nat n <? 0)%Z with false by (symmetry; apply Z.ltb_ge; lia)
    end; lia.
Qed.

Lemma one_decimal_whole (v : Q) (k : Z) :
  v == inject_Z k -> one_decimal v = WString.print_ulong k ++ ".0".
Proof.
  intros H. unfold one_decimal.
  assert (F : Qfloor (v * 10 + (1 # 2)) = (k * 10)%Z).
  { apply Qfloor_unique.
    - rewrite inject_Z_mult, H. change (inject_Z 10) with 10. lra.
    - rewrite inject_Z_plus, inject_Z_mult, H.
      change (inject_Z 10) with 10. change (inject_Z 1) with 1. lra. }
  rewrite F, Z.div_mul, Z.mod_mul by lia. reflexivity.
Qed.

Lemma constrain_whole (v : Q) (n : Z) :
  v == inject_Z n ->
  Arduino.constrain v 0 180 == inject_Z (clamp_degrees n).
Proof.
  intros H. unfold Arduino.constrain, clamp_degrees.
  destruct (Z.lt_ge_cases n 0) as [N | N];
    [| destruct (Z.le_gt_cases n 180) as [L | G]].
  - rewrite Z.min_l, Z.max_l by lia. rewrite Zlt_Qlt in N.
    change (inject_Z 0) with 0 in *. split_comparisons; lra.
  - rewrite Z.min_l, Z.max_r by lia. rewrite Zle_Qle in N, L.
    change (inject_Z 0) with 0 in *. change (inject_Z 180) with 180 in *.
    split_comparisons; lra.
  - rewrite Z.min_r, Z.max_r by lia. rewrite Zlt_Qlt in G.
    change (inject_Z 180) with 180 in *. split_comparisons; lra.
Qed.

Lemma toFloat_minus (c : ascii) (r : string) :
  WString.isdigit c = true ->
  WString.toFloat (String "-" (String c r)) == - WString.toFloat (String c r).
Proof.
  intros D. destruct (digit_is_plain c D) as (S1 & S2 & S3 & _).
  unfold WString.toFloat.
  cbn [WString.skip_space]. change (WString.isspace "-") with false. cbv iota.
  rewrite S1. cbn [WString.read_sign]. rewrite S2, S3.
  change (Ascii.eqb "-" "-") with true. cbv iota.
  destruct (WString.read_digits 0 0 (String c r)) as [[ip ni] s1].
  destruct (match s1 with
            | "" => (ip, 0%Z, s1)
            | String c0 rest =>
                if Ascii.eqb c0 "." then WString.read_digits ip 0 rest
                else (ip, 0%Z, s1)
            end) as [[m nf] s2].
  reflexivity.
Qed.

(** Parsing the decimal numeral of an integer gives the integer. *)
Lemma toFloat_decimal_of (z : Z) :
  WString.toFloat (decimal_of z) == inject_Z z.
Proof.
  unfold decimal_of. destruct (Z.ltb_spec z 0) as [N | N].
  - destruct (print_ulong_digits (- z)) as [_ (c & r & F & D)].
    rewrite F, (toFloat_minus c r D), <- F, toFloat_print_ulong by lia.
    rewrite inject_Z_opp. ring.
  - apply toFloat_print_ulong, N.
Qed.

Lemma indexOf_after_decimal (z : Z) (rest : string) :
  WString.indexOf "T" (decimal_of z ++ String "T" rest)
  = Z.of_nat (String.length (decimal_of z)).
Proof.
  unfold decimal_of. destruct (z <? 0)%Z.
  - destruct (print_ulong_digits (- z)) as [E _]. rewrite E.
    cbn [append WString.indexOf String.length].
    change (Ascii.eqb "-" "T") with false. cbv iota.
    rewrite indexOf_after_digits by reflexivity.
    match goal with
    | |- context [(Z.of_nat ?n <? 0)%Z] =>
        replace (Z.of_nat n <? 0)%Z with false by (symmetry; apply Z.ltb_ge; lia)
    end. lia.
  - destruct (print_ulong_digits z) as [E _]. rewrite E.
    apply indexOf_after_digits. reflexivity.
Qed.

Lemma decimal_of_nonempty (z : Z) : (1 <= String.length (decimal_of z))%nat.
Proof.
  unfold decimal_of. destruct (z <? 0)%Z; [cbn; lia |].
  destruct (print_ulong_digits z) as [_ (c & r & F & _)]. rewrite F. cbn. lia.
Qed.

Lemma command_for_parts (pan tilt : Z) :
  WString.indexOf "P" (command_for pan tilt) = 0%Z /\
  WString.indexOf "T" (command_for pan tilt)
  = (1 + WString.length (decimal_of pan))%Z /\
  WString.substring (0 + 1) (1 + WString.length (decimal_of pan))
    (command_for pan tilt) = decimal_of pan /\
  WString.substring_from (1 + WString.length (decimal_of pan) + 1)
    (command_for pan tilt) = decimal_of tilt.
Proof.
  pose proof (indexOf_after_decimal pan (decimal_of tilt)) as IT.
  pose proof (decimal_of_nonempty tilt) as LB.
  unfold command_for. cbn [append].
  set (A := decimal_of pan) in *.
  set (B := decimal_of tilt) in *.
  assert (LL : WString.length (String "P" (A ++ String "T" B))
               = (Z.of_nat (String.length A) + Z.of_nat (String.length B) + 2)%Z).
  { unfold WString.length. cbn [String.length].
    rewrite string_length_app. cbn [String.length]. lia. }
  split; [reflexivity |]. split.
  { cbn [WString.indexOf]. change (Ascii.eqb "P" "T") with false. cbv iota.
    rewrite IT.
    replace (Z.of_nat (String.length A) <? 0)%Z with false
      by (symmetry; apply Z.ltb_ge; lia).
    unfold WString.length. lia. }
  split.
  - rewrite WString_substring_inside; rewrite ?LL; unfold WString.length; try lia.
    replace (Z.to_nat (0 + 1)) with 1%nat by lia.
    replace (Z.to_nat (1 + Z.of_nat (String.length A) - (0 + 1)))
      with (String.length A) by lia.
    cbn [String.substring]. apply substring_prefix.
  - unfold WString.substring_from.
    rewrite WString_substring_inside; rewrite ?LL; unfold WString.length; try lia.
    replace (Z.to_nat (1 + Z.of_nat (String.length A) + 1))
      with (S (String.length A + 1)) by lia.
    replace (Z.to_nat (Z.of_nat (String.length A) + Z.of_nat (String.length B) + 2
                       - (1 + Z.of_nat (String.length A) + 1)))
      with (String.length B) by lia.
    cbn [String.substring]. rewrite substring_skip.
    cbn [String.substring]. apply substring_whole.
Qed.

(** X12. The command [P<pan>T<tilt>] written with the decimal numerals of any
    two integers publishes these numbers as targets, cut to 0 when negative
    and to 180 when larger, and is acknowledged with the published numbers
    and one zero after the point. *)
Theorem integer_command_round_trip (pan tilt : Z) (s : Controller) :
  targetPanAngle (processCommand (command_for pan tilt) s)
  == inject_Z (clamp_degrees pan) /\
  targetTiltAngle (processCommand (command_for pan tilt) s)
  == inject_Z (clamp_degrees tilt) /\
  serialOut (processCommand (command_for pan tilt) s)
  = serialOut s ++ "OK: P=" ++ WString.print_ulong (clamp_degrees pan) ++ ".0"
      ++ ", T=" ++ WString.print_ulong (clamp_degrees tilt) ++ ".0" ++ CRLF.
Proof.
  destruct (command_for_parts pan tilt) as (IP & IT & SP & ST).
  rewrite processCommand_accepts
    by (rewrite ?IP, ?IT; unfold WString.length; lia).
  cbv zeta. rewrite IP, IT, SP, ST.
  cbn [targetPanAngle targetTiltAngle serialOut].
  unfold PAN_MIN, PAN_MAX, TILT_MIN, TILT_MAX.
  pose proof (constrain_whole _ pan (toFloat_decimal_of pan)) as CP.
  pose proof (constrain_whole _ tilt (toFloat_decimal_of tilt)) as CT.
  split; [exact CP | split; [exact CT |]].
  rewrite !printFloat_one_decimal by (apply constrain_within; lra).
  rewrite (one_decimal_whole _ _ CP), (one_decimal_whole _ _ CT).
  rewrite !append_assoc. reflexivity.
Qed.

(** ** Settling time *)

Lemma all_due_app (first : list Z) :
  forall (rest : list Z) (s : Controller),
    all_due (first ++ rest) s = true ->
    all_due first s = true /\ all_due rest (ticks first s) = true.
Proof.
  induction first as [| t first IH]; intros rest s H; [split; [reflexivity | exact H] |].
  cbn [app all_due ticks] in *. apply andb_true_iff in H. destruct H as [H1 H2].
  destruct (IH _ _ H2) as [A B]. rewrite H1, A. split; [reflexivity | exact B].
Qed.

Lemma reachable_within_limits (s : Controller) :
  reachable s -> angles_within_limits s.
Proof.
  intros R. induction R.
  - exact setup_within_limits.
  - now apply readChar_within_limits.
  - now apply updateServos_within_limits.
Qed.

(** X13. From every state the sketch reaches, 22 ticks with no new command
    bring each axis within [MIN_STEP] of its target, and it stays there
    over any further ticks. *)
Theorem settles_within_22_ticks (ax : Axis) (times : list Z) (s : Controller) :
  reachable s ->
  all_due times s = true ->
  (22 <= List.length times)%nat ->
  distance ax (ticks times s) <= MIN_STEP.
Proof.
  intros R D L.
  rewrite <- (firstn_skipn 22 times) in D |- *.
  destruct (all_due_app _ _ _ D) as [D1 _].
  rewrite ticks_app.
  eapply Qle_trans; [apply ticks_distance_nonincreasing |].
  assert (B : distance ax s <= 180).
  { destruct (reachable_within_limits s R ax) as [[C1 C2] [T1 T2]].
    unfold distance. revert C1 C2 T1 T2.
    destruct ax; cbn [current target min_limit max_limit];
      unfold PAN_MIN, PAN_MAX, TILT_MIN, TILT_MAX;
      apply Qabs_case; intros; lra. }
  destruct (ticks_decay ax (firstn 22 times) s 180 D1 B) as [H | H]; [exact H |].
  eapply Qle_trans; [exact H |].
  rewrite length_firstn, Nat.min_l by exact L.
  vm_compute. discriminate.
Qed.

Lemma settles_within_22_ticks_witness :
  reachable small_move /\
  distance Pan
    (ticks [5; 10; 15; 20; 25; 30; 35; 40; 45; 50; 55; 60; 65; 70; 75; 80;
            85; 90; 95; 100; 105; 110]%Z small_move) <= MIN_STEP.
Proof.
  assert (R : reachable small_move).
  { unfold small_move. apply readSerialCommands_reachable. exact reachable_setup. }
  split; [exact R |].
  refine (settles_within_22_ticks Pan _ small_move R _ _).
  - vm_compute. reflexivity.
  - cbn. lia.
Defined.

(** * The sketch with whole-degree angles *)

Lemma wrap_small (z : Z) :
  (- 2 ^ 15 <= z < 2 ^ 15)%Z -> IntegerSketch.wrap z = z.
Proof.
  intros H. unfold IntegerSketch.wrap. rewrite Z.mod_small; lia.
Qed.

Lemma to_long_scaled (d : Z) :
  Arduino.to_long (inject_Z d * IntegerSketch.SMOOTH_FACTOR)
  = (if (0 <=? d)%Z then 4 * d / 10 else - (4 * - d / 10))%Z.
Proof.
  unfold Arduino.to_long.
  destruct (Z.leb_spec 0 d) as [H | H].
  - replace (Qleb 0 (inject_Z d * IntegerSketch.SMOOTH_FACTOR)) with true.
    + unfold Qfloor, IntegerSketch.SMOOTH_FACTOR. cbn [Qnum Qden Qmult inject_Z Pos.mul].
      f_equal. lia.
    + symmetry. apply Qle_bool_iff. unfold Qle. cbn. lia.
  - replace (Qleb 0 (inject_Z d * IntegerSketch.SMOOTH_FACTOR)) with false.
    + unfold Qceiling, Qfloor, Qopp, IntegerSketch.SMOOTH_FACTOR.
      cbn [Qnum Qden Qmult inject_Z Pos.mul]. do 2 f_equal. lia.
    + symmetry. destruct (Qleb 0 (inject_Z d * IntegerSketch.SMOOTH_FACTOR)) eqn:E;
        [| reflexivity].
      apply Qleb_true in E. unfold Qle in E. cbn in E. lia.
Qed.

(** Upward the step is 40 percent of the difference, at least one degree;
    downward it is always one degree. *)
Lemma approach_whole (cur tgt : Z) :
  (0 <= cur <= 180)%Z -> (0 <= tgt <= 180)%Z ->
  IntegerSketch.approach cur tgt =
  (if cur <? tgt then cur + Z.max 1 (4 * (tgt - cur) / 10)
   else if tgt <? cur then cur - 1
   else cur)%Z.
Proof.
  intros C T. unfold IntegerSketch.approach.
  rewrite (wrap_small (tgt - cur)) by lia.
  rewrite to_long_scaled.
  destruct (Z.ltb_spec cur tgt) as [Up | NotUp].
  - replace (cur =? tgt)%Z with false by (symmetry; apply Z.eqb_neq; lia).
    cbn [negb].
    replace (0 <=? tgt - cur)%Z with true by (symmetry; apply Z.leb_le; lia).
    assert (Q1 : (0 <= 4 * (tgt - cur) / 10 < tgt - cur)%Z).
    { split; [apply Z.div_pos; lia |].
      apply Z.div_lt_upper_bound; lia. }
    rewrite (wrap_small (4 * (tgt - cur) / 10)) by lia.
    unfold IntegerSketch.max, IntegerSketch.abs.
    destruct (Z.ltb_spec (4 * (tgt - cur) / 10) 1) as [S1 | S1].
    + rewrite Z.max_l by lia. cbn [Z.ltb Z.compare].
      unfold Arduino.abs.
      rewrite Qltb_intro by (rewrite <- (Zlt_Qlt 0); lia).
      destruct (Qleb (inject_Z (tgt - cur)) (inject_Z 1)) eqn:E.
      * apply Qleb_true in E. rewrite <- Zle_Qle in E. lia.
      * rewrite wrap_small by lia. reflexivity.
    + rewrite Z.max_r by lia.
      replace (0 <? 4 * (tgt - cur) / 10)%Z with true
        by (symmetry; apply Z.ltb_lt; lia).
      unfold Arduino.abs.
      rewrite Qltb_intro by (rewrite <- (Zlt_Qlt 0); lia).
      destruct (Qleb (inject_Z (tgt - cur)) (inject_Z (4 * (tgt - cur) / 10))) eqn:E.
      * apply Qleb_true in E. rewrite <- Zle_Qle in E. lia.
      * rewrite wrap_small by lia. reflexivity.
  - destruct (Z.ltb_spec tgt cur) as [Down | Same].
    + replace (cur =? tgt)%Z with false by (symmetry; apply Z.eqb_neq; lia).
      cbn [negb].
      replace (0 <=? tgt - cur)%Z with false by (symmetry; apply Z.leb_gt; lia).
      assert (Q1 : (0 <= 4 * - (tgt - cur) / 10 < 2 ^ 15)%Z).
      { split; [apply Z.div_pos; lia |].
        apply Z.div_lt_upper_bound; lia. }
      rewrite (wrap_small (- (4 * - (tgt - cur) / 10))) by lia.
      unfold IntegerSketch.max.
      replace (- (4 * - (tgt - cur) / 10) <? 1)%Z with true
        by (symmetry; apply Z.ltb_lt; lia).
      unfold IntegerSketch.abs. cbn [Z.ltb Z.compare].
      unfold Arduino.abs.
      rewrite Qltb_intro_false by (rewrite <- (Zle_Qle _ 0); lia).
      destruct (Qleb (- inject_Z (tgt - cur)) (inject_Z 1)) eqn:E.
      * apply Qleb_true in E. rewrite <- inject_Z_opp, <- Zle_Qle in E. lia.
      * rewrite wrap_small by lia. reflexivity.
    + replace (cur =? tgt)%Z with true by (symmetry; apply Z.eqb_eq; lia).
      reflexivity.
Qed.

Lemma IntegerSketch_movePan_fields (s : IntegerSketch.Controller) :
  IntegerSketch.panAngle (IntegerSketch.movePan s)
  = IntegerSketch.approach (IntegerSketch.panAngle s) (IntegerSketch.targetPanAngle s) /\
  IntegerSketch.tiltAngle (IntegerSketch.movePan s) = IntegerSketch.tiltAngle s /\
  IntegerSketch.targetPanAngle (IntegerSketch.movePan s) = IntegerSketch.targetPanAngle s /\
  IntegerSketch.targetTiltAngle (IntegerSketch.movePan s) = IntegerSketch.targetTiltAngle s.
Proof.
  unfold IntegerSketch.movePan, IntegerSketch.approach.
  destruct (negb (IntegerSketch.panAngle s =? IntegerSketch.targetPanAngle s)%Z);
    cbv zeta.
  - destruct (Qleb _ _); [| destruct (Qltb 0 _)]; cbn; repeat split; reflexivity.
  - repeat split; reflexivity.
Qed.

Lemma IntegerSketch_moveTilt_fields (s : IntegerSketch.Controller) :
  IntegerSketch.panAngle (IntegerSketch.moveTilt s) = IntegerSketch.panAngle s /\
  IntegerSketch.tiltAngle (IntegerSketch.moveTilt s)
  = IntegerSketch.approach (IntegerSketch.tiltAngle s) (IntegerSketch.targetTiltAngle s) /\
  IntegerSketch.targetPanAngle (IntegerSketch.moveTilt s) = IntegerSketch.targetPanAngle s /\
  IntegerSketch.targetTiltAngle (IntegerSketch.moveTilt s) = IntegerSketch.targetTiltAngle s.
Proof.
  unfold IntegerSketch.moveTilt, IntegerSketch.approach.
  destruct (negb (IntegerSketch.tiltAngle s =? IntegerSketch.targetTiltAngle s)%Z);
    cbv zeta.
  - destruct (Qleb _ _); [| destruct (Qltb 0 _)]; cbn; repeat split; reflexivity.
  - repeat split; reflexivity.
Qed.

Lemma IntegerSketch_updateServos_fields
    (ax : Axis) (now : Z) (s : IntegerSketch.Controller) :
  IntegerSketch.target ax (IntegerSketch.updateServos now s)
  = IntegerSketch.target ax s /\
  IntegerSketch.current ax (IntegerSketch.updateServos now s)
  = if IntegerSketch.too_early now s then IntegerSketch.current ax s
    else IntegerSketch.approach (IntegerSketch.current ax s)
                                (IntegerSketch.target ax s).
Proof.
  unfold IntegerSketch.updateServos.
  destruct (IntegerSketch.too_early now s); [split; reflexivity |].
  destruct (IntegerSketch_moveTilt_fields
              (IntegerSketch.movePan (IntegerSketch.set_lastMoveTime now s)))
    as (T1 & T2 & T3 & T4).
  destruct (IntegerSketch_movePan_fields (IntegerSketch.set_lastMoveTime now s))
    as (P1 & P2 & P3 & P4).
  destruct ax; cbn [IntegerSketch.target IntegerSketch.current]; split.
  - rewrite T3, P3. reflexivity.
  - rewrite T1, P1. reflexivity.
  - rewrite T4, P4. reflexivity.
  - rewrite T2, P2, P4. reflexivity.
Qed.

(** X14. In the sketch with whole-degree angles, a tick moves an axis that is
    below its target up by 40 percent of the difference, rounded down, and
    at least one degree, but an axis above its target down by one degree
    only, whatever the difference. *)
Theorem whole_degree_step (ax : Axis) (now : Z) (s : IntegerSketch.Controller) :
  IntegerSketch.within_limits ax s ->
  IntegerSketch.too_early now s = false ->
  IntegerSketch.current ax (IntegerSketch.updateServos now s) =
  (if IntegerSketch.current ax s <? IntegerSketch.target ax s
   then IntegerSketch.current ax s
        + Z.max 1 (4 * (IntegerSketch.target ax s - IntegerSketch.current ax s) / 10)
   else if IntegerSketch.target ax s <? IntegerSketch.current ax s
        then IntegerSketch.current ax s - 1
        else IntegerSketch.current ax s)%Z.
Proof.
  intros [C T] D.
  destruct (IntegerSketch_updateServos_fields ax now s) as [_ E].
  rewrite E, D. now apply approach_whole.
Qed.

Lemma whole_degree_step_witness :
  IntegerSketch.current Tilt (IntegerSketch.updateServos 10 IntegerSketch.sample) =
  (if IntegerSketch.current Tilt IntegerSketch.sample
      <? IntegerSketch.target Tilt IntegerSketch.sample
   then IntegerSketch.current Tilt IntegerSketch.sample
        + Z.max 1 (4 * (IntegerSketch.target Tilt IntegerSketch.sample
                        - IntegerSketch.current Tilt IntegerSketch.sample) / 10)
   else if IntegerSketch.target Tilt IntegerSketch.sample
           <? IntegerSketch.current Tilt IntegerSketch.sample
        then IntegerSketch.current Tilt IntegerSketch.sample - 1
        else IntegerSketch.current Tilt IntegerSketch.sample)%Z.
Proof.
  refine (whole_degree_step Tilt 10 IntegerSketch.sample _ eq_refl).
  unfold IntegerSketch.within_limits. cbn. lia.
Defined.

Lemma approach_whole_bounds (cur tgt : Z) :
  (0 <= cur <= 180)%Z -> (0 <= tgt <= 180)%Z ->
  (Z.min cur tgt <= IntegerSketch.approach cur tgt <= Z.max cur tgt)%Z /\
  (cur <> tgt ->
   Z.abs (tgt - IntegerSketch.approach cur tgt) <= Z.abs (tgt - cur) - 1)%Z.
Proof.
  intros C T. rewrite approach_whole by assumption.
  destruct (Z.ltb_spec cur tgt) as [Up | NotUp];
    [| destruct (Z.ltb_spec tgt cur) as [Down | Same]].
  - assert (Q1 : (0 <= 4 * (tgt - cur) / 10 < tgt - cur)%Z).
    { split; [apply Z.div_pos; lia |]. apply Z.div_lt_upper_bound; lia. }
    split; intros; lia.
  - split; intros; lia.
  - split; intros; lia.
Qed.

(** X15. In the sketch with whole-degree angles, no call of [updateServos] moves
    an axis past its target or out of the servo limits: the new angle lies
    between the old angle and the target, and the target stays. *)
Theorem whole_degree_no_overshoot
    (ax : Axis) (now : Z) (s : IntegerSketch.Controller) :
  IntegerSketch.within_limits ax s ->
  IntegerSketch.within_limits ax (IntegerSketch.updateServos now s) /\
  IntegerSketch.target ax (IntegerSketch.updateServos now s)
  = IntegerSketch.target ax s /\
  (Z.min (IntegerSketch.current ax s) (IntegerSketch.target ax s)
   <= IntegerSketch.current ax (IntegerSketch.updateServos now s)
   <= Z.max (IntegerSketch.current ax s) (IntegerSketch.target ax s))%Z.
Proof.
  intros [C T]. unfold IntegerSketch.within_limits.
  destruct (IntegerSketch_updateServos_fields ax now s) as [E1 E2].
  rewrite E1, E2.
  destruct (IntegerSketch.too_early now s); [repeat split; lia |].
  destruct (approach_whole_bounds _ _ C T) as [B _].
  repeat split; lia.
Qed.

Lemma whole_degree_no_overshoot_witness :
  IntegerSketch.within_limits Pan
    (IntegerSketch.updateServos 10 IntegerSketch.sample) /\
  IntegerSketch.target Pan (IntegerSketch.updateServos 10 IntegerSketch.sample)
  = IntegerSketch.target Pan IntegerSketch.sample /\
  (Z.min (IntegerSketch.current Pan IntegerSketch.sample)
         (IntegerSketch.target Pan IntegerSketch.sample)
   <= IntegerSketch.current Pan (IntegerSketch.updateServos 10 IntegerSketch.sample)
   <= Z.max (IntegerSketch.current Pan IntegerSketch.sample)
            (IntegerSketch.target Pan IntegerSketch.sample))%Z.
Proof.
  refine (whole_degree_no_overshoot Pan 10 IntegerSketch.sample _).
  unfold IntegerSketch.within_limits. cbn. lia.
Defined.

(** X16. In the sketch with whole-degree angles an axis reaches its target
    exactly: after as many ticks as the distance to the target counts
    degrees, or more, the current angle equals the target. *)
Theorem whole_degree_arrival (ax : Axis) (times : list Z) :
  forall s : IntegerSketch.Controller,
    IntegerSketch.within_limits ax s ->
    IntegerSketch.all_due times s = true ->
    (Z.abs (IntegerSketch.target ax s - IntegerSketch.current ax s)
     <= Z.of_nat (List.length times))%Z ->
    IntegerSketch.current ax (IntegerSketch.ticks times s)
    = IntegerSketch.target ax s.
Proof.
  induction times as [| now rest IH]; intros s W D H.
  - cbn [List.length IntegerSketch.ticks] in *. lia.
  - cbn [IntegerSketch.all_due] in D. apply andb_true_iff in D.
    destruct D as [D1 D2]. apply negb_true_iff in D1.
    cbn [IntegerSketch.ticks].
    destruct (IntegerSketch_updateServos_fields ax now s) as [E1 E2].
    rewrite D1 in E2.
    assert (W' : IntegerSketch.within_limits ax (IntegerSketch.updateServos now s)).
    { destruct W as [C T]. unfold IntegerSketch.within_limits. rewrite E1, E2.
      destruct (approach_whole_bounds _ _ C T) as [B _]. lia. }
    rewrite (IH _ W' D2); [exact E1 |].
    rewrite E1, E2. destruct W as [C T].
    destruct (approach_whole_bounds _ _ C T) as [B S].
    cbn [List.length] in H.
    destruct (Z.eq_dec (IntegerSketch.current ax s) (IntegerSketch.target ax s))
      as [Eq | Ne].
    + rewrite approach_whole by assumption.
      rewrite Eq, Z.ltb_irrefl. lia.
    + specialize (S Ne). lia.
Qed.

Lemma whole_degree_arrival_witness :
  IntegerSketch.current Pan
    (IntegerSketch.ticks [10; 20; 30; 40; 50; 60; 70; 80; 90; 100]%Z
       IntegerSketch.sample)
  = IntegerSketch.target Pan IntegerSketch.sample.
Proof.
  refine (whole_degree_arrival Pan [10; 20; 30; 40; 50; 60; 70; 80; 90; 100]%Z
            IntegerSketch.sample _ eq_refl _).
  - unfold IntegerSketch.within_limits. cbn. lia.
  - cbn. lia.
Defined.
